(** * Sparse Clenshaw-Curtis grids: a shallow embedding of
      [sparse_clenshaw_curtis.py] and of the integration operator of
      [example.py]

    Python integers are modelled by [Z], tuples of levels by [list Z],
    numpy arrays by lists and Python exceptions by an error monad.  The reals
    of the program are binary64 numbers: the operations on them are gathered
    in the interface [float_ops], the algorithm is written once over that
    interface, and [binary64] instantiates it with the IEEE 754 operations of
    the standard library's [SpecFloat].  The external quadrature provider
    ([_make_clenshaw_curtis_nodes_and_weights] of modepy) is a parameter of
    the development. *)

From Stdlib Require Import ZArith QArith Qpower List FinFun Lia Bool Factorial Arith
  Permutation SpecFloat.
Import ListNotations.

Local Open Scope Z_scope.

(** ** Exceptions *)

(** The exceptions the module can raise, one constructor per raise site. *)
Inductive exn : Type :=
| EmptyInterval      (* ValueError("Empty interval. ...") *)
| NonIntegerBounds   (* TypeError("Interval boundaries need to be integers.") *)
| LevelBelowOne      (* ValueError("Level must be >= 1 for Sparse Grid.") *)
| NegativeRepeat     (* ValueError of itertools.product(..., repeat=n), n < 0 *)
| NegativeComb       (* ValueError of math.comb on a negative argument *)
| AxisOutOfBounds    (* numpy AxisError of an axis=1 operation on a 1-d array *)
| FloatOverflow.     (* OverflowError of int / int and of float ** int *)

Inductive pyclass : Type := ValueError | TypeError | OverflowError.

Definition exn_class (e : exn) : pyclass :=
  match e with
  | NonIntegerBounds => TypeError
  | FloatOverflow => OverflowError
  | _ => ValueError
  end.

Inductive result (A : Type) : Type :=
| Ok (a : A)
| Raise (e : exn).

Arguments Ok {A} a.
Arguments Raise {A} e.

Definition bind {A B : Type} (r : result A) (k : A -> result B) : result B :=
  match r with
  | Ok a => k a
  | Raise e => Raise e
  end.

Notation "x <- c ;; k" := (bind c (fun x => k))
  (at level 61, c at next level, right associativity).
Notation "' pat <- c ;; k" := (bind c (fun x => match x with pat => k end))
  (at level 61, pat pattern, c at next level, right associativity).

(** A list comprehension whose body can raise: the first failure wins. *)
Fixpoint mapM {A B : Type} (f : A -> result B) (l : list A) : result (list B) :=
  match l with
  | [] => Ok []
  | x :: rest => y <- f x ;; ys <- mapM f rest ;; Ok (y :: ys)
  end.

(** ** Python numbers passed as interval endpoints *)

Inductive pynum : Type :=
| PyInt (z : Z)
| PyFloat (q : Q)
| PyBool (b : bool).

Definition num_val (v : pynum) : Q :=
  match v with
  | PyInt z => inject_Z z
  | PyFloat q => q
  | PyBool b => if b then 1%Q else 0%Q
  end.

(** [type(v) == int] *)
Definition is_int (v : pynum) : bool :=
  match v with PyInt _ => true | _ => false end.

(** [a < b] on Python numbers. *)
Definition py_lt (a b : pynum) : bool := negb (Qle_bool (num_val b) (num_val a)).

(** ** Binary64 arithmetic *)

(** The operations of the program on binary64 numbers.  The three that can
    raise [OverflowError] return [None] in that case: the product of a Python
    int and a float converts the int first, which fails beyond the float
    range. *)
Record float_ops : Type := {
  flt : Type;                            (* the values of np.float64 *)
  fone : flt;                            (* 1.0 *)
  fmul : flt -> flt -> flt;              (* x * y *)
  fadd : flt -> flt -> flt;              (* x + y *)
  imul : Z -> flt -> option flt;         (* n * x, n a Python int *)
  int_half : Z -> option flt;            (* n / 2, n a Python int *)
  fpow : flt -> nat -> option flt;       (* x ** n, n a Python int >= 0 *)
  np_dot : list flt -> list flt -> flt   (* np.dot(u, v) *)
}.

(** ** Library functions used by the module *)

(** [range(lo, hi)] *)
Definition py_range (lo hi : Z) : list Z :=
  map (fun i => lo + Z.of_nat i) (seq 0 (Z.to_nat (hi - lo))).

(** [itertools.product] applied to a list of sequences: the last position
    varies fastest. *)
Fixpoint product {A : Type} (ls : list (list A)) : list (list A) :=
  match ls with
  | [] => [[]]
  | l :: rest => flat_map (fun x => map (cons x) (product rest)) l
  end.

(** [itertools.product(r, repeat=n)] *)
Definition product_repeat {A : Type} (r : list A) (n : Z) : result (list (list A)) :=
  if n <? 0 then Raise NegativeRepeat else Ok (product (repeat r (Z.to_nat n))).

(** [sum(idx)] on a tuple of integers *)
Definition zsum (l : list Z) : Z := fold_right Z.add 0 l.

(** [math.comb(n, k)]: [n! / (k! * (n - k)!)] when [k <= n], zero when
    [k > n], [ValueError] on a negative argument. *)
Definition comb (n k : Z) : result Z :=
  if (n <? 0) || (k <? 0) then Raise NegativeComb
  else if k <=? n then
    Ok (Z.of_nat (fact (Z.to_nat n) /
                  (fact (Z.to_nat k) * fact (Z.to_nat n - Z.to_nat k))))
  else Ok 0.

(** ** The module *)

Definition index_set (dim level : Z) : result (list (list Z)) :=
  tuples <- product_repeat (py_range 1 (level + dim + 1)) dim ;;
  Ok (filter (fun idx => (level + 1 <=? zsum idx) && (zsum idx <=? level + dim))
             tuples).

Definition closed_non_linear_growth_rule (level : Z) : result Z :=
  if level <? 1 then Raise LevelBelowOne
  else if level =? 1 then Ok 1
  else Ok (2 ^ (level - 1) + 1).

(** The Smolyak coefficient of one multi-index.  On a negative exponent
    [(-1) ** e] is a float in Python, but [math.comb] then raises on the same
    negative [e], so the expression has no value there. *)
Definition smolyak_coeff (dim level : Z) (idx : list Z) : result Z :=
  c <- comb (dim - 1) (level + dim - zsum idx) ;;
  Ok ((-1) ^ (level + dim - zsum idx) * c).

Section Program.

Variable A : float_ops.

(** A one-dimensional rule: the array of nodes and the array of weights. *)
Definition rule1d : Type := (list (flt A) * list (flt A))%type.

(** [n / 2], [x ** n] and [n * x] with their [OverflowError]. *)
Definition py_int_half (n : Z) : result (flt A) :=
  match int_half A n with Some h => Ok h | None => Raise FloatOverflow end.

Definition py_int_mul (n : Z) (x : flt A) : result (flt A) :=
  match imul A n x with Some y => Ok y | None => Raise FloatOverflow end.

Definition py_float_pow (x : flt A) (n : nat) : result (flt A) :=
  match fpow A x n with Some p => Ok p | None => Raise FloatOverflow end.

(** [np.prod] of one row, from left to right. *)
Definition fprod (row : list (flt A)) : flt A :=
  fold_left (fmul A) row (fone A).

(** [np.prod(np.array(rows), axis=1)]: an empty list of rows is a
    one-dimensional array, which has no axis 1. *)
Definition np_prod_axis1 (rows : list (list (flt A))) : result (list (flt A)) :=
  match rows with
  | [] => Raise AxisOutOfBounds
  | _ => Ok (map fprod rows)
  end.

(** modepy's [_make_clenshaw_curtis_nodes_and_weights]. *)
Variable make_nodes_and_weights : Z -> rule1d.

Definition clenshaw_curtis_rule (level : Z) : result rule1d :=
  m <- closed_non_linear_growth_rule level ;;
  Ok (make_nodes_and_weights m).

(** The affine map of one coordinate: [h * x + m]. *)
Definition remap (h m x : flt A) : flt A := fadd A (fmul A h x) m.

(** The body of [tensor_product_rule] after the two checks.  Line 141
    divides [b - a] and [a + b] by 2, line 142 divides [b - a] again and
    raises the quotient to the power [len(indices)]. *)
Definition tensor_build (indices : list Z) (one_d_rule : Z -> result rule1d)
    (a b : Z) : result (list (list (flt A)) * list (flt A)) :=
  pts_1d <- mapM (fun l => r <- one_d_rule l ;; Ok (fst r)) indices ;;
  wts_1d <- mapM (fun l => r <- one_d_rule l ;; Ok (snd r)) indices ;;
  let grid := product pts_1d in
  weights <- np_prod_axis1 (product wts_1d) ;;
  if negb ((a =? -1) && (b =? 1)) then
    h <- py_int_half (b - a) ;;
    m <- py_int_half (a + b) ;;
    let grid := map (map (remap h m)) grid in
    h' <- py_int_half (b - a) ;;
    p <- py_float_pow h' (length indices) ;;
    Ok (grid, map (fun w => fmul A w p) weights)
  else Ok (grid, weights).

Definition tensor_product_rule (indices : list Z) (one_d_rule : Z -> result rule1d)
    (a b : pynum) : result (list (list (flt A)) * list (flt A)) :=
  if negb (py_lt a b) then Raise EmptyInterval
  else match a, b with
       | PyInt za, PyInt zb => tensor_build indices one_d_rule za zb
       | _, _ => Raise NonIntegerBounds
       end.

Variables (dim level : Z) (a b : pynum).

(** The [for idx in index_set(dim, level)] loop, with its two
    accumulators.  The inner loop over [zip(x, w)] appends the points and the
    products [coeff * wi]; an exception of a product leaves the loop, so the
    products are taken first here. *)
Fixpoint sparse_loop (idxs : list (list Z))
    (all_points : list (list (flt A))) (all_weights : list (flt A))
    : result (list (list (flt A)) * list (flt A)) :=
  match idxs with
  | [] => Ok (all_points, all_weights)
  | idx :: rest =>
      coeff <- smolyak_coeff dim level idx ;;
      '(x, w) <- tensor_product_rule idx clenshaw_curtis_rule a b ;;
      ws <- mapM (fun p => py_int_mul coeff (snd p)) (combine x w) ;;
      sparse_loop rest (all_points ++ map fst (combine x w)) (all_weights ++ ws)
  end.

Definition sparse_grid_nodes_weights
    : result (list (list (flt A)) * list (flt A)) :=
  idxs <- index_set dim level ;;
  sparse_loop idxs [] [].

End Program.

Arguments rule1d A : clear implicits.

(** ** The integration operator of [example.py] *)

(** [sparse_grid_integrate(func, dim, level)]: the rule on the default domain
    [0, 1], [np.apply_along_axis(func, 1, nodes)] and the dot product with the
    weights.  An empty [nodes] is a one-dimensional array, which has no
    axis 1.  [func] is a total function of a point. *)
Definition sparse_grid_integrate (A : float_ops)
    (make_nodes_and_weights : Z -> rule1d A)
    (func : list (flt A) -> flt A) (dim level : Z) : result (flt A) :=
  '(nodes, weights) <- sparse_grid_nodes_weights A make_nodes_and_weights
                         dim level (PyInt 0) (PyInt 1) ;;
  match nodes with
  | [] => Raise AxisOutOfBounds
  | _ => Ok (np_dot A (map func nodes) weights)
  end.

(** ** The binary64 instance *)

Module B64.

(** [m * 2^e] rounded to the nearest binary64 number, ties to even. *)
Definition of_scaled (m e : Z) : spec_float := binary_normalize 53 1024 m e false.

Definition of_Z (n : Z) : spec_float := of_scaled n 0.

Definition mul : spec_float -> spec_float -> spec_float := SFmul 53 1024.
Definition add : spec_float -> spec_float -> spec_float := SFadd 53 1024.
Definition div : spec_float -> spec_float -> spec_float := SFdiv 53 1024.

Definition finite_or_none (x : spec_float) : option spec_float :=
  match x with
  | S754_infinity _ => None
  | _ => Some x
  end.

(** Python's [n / 2] on an int is the correctly rounded quotient. *)
Definition half (n : Z) : option spec_float := finite_or_none (of_scaled n (-1)).

(** [x ** n] goes to the C library's [pow], taken here as correctly
    rounded; [x ** 0] is 1.0. *)
Definition pow (x : spec_float) (n : nat) : option spec_float :=
  match n with
  | O => Some (of_Z 1)
  | _ =>
      match x with
      | S754_finite s m e =>
          let sign := s && Nat.odd n in
          let mant := Z.pos m ^ Z.of_nat n in
          finite_or_none
            (binary_normalize 53 1024 (if sign then - mant else mant)
                              (e * Z.of_nat n) sign)
      | S754_zero s => Some (S754_zero (s && Nat.odd n))
      | S754_infinity s => Some (S754_infinity (s && Nat.odd n))
      | S754_nan => Some S754_nan
      end
  end.

(** [n * x] for a Python int [n]: [n] is converted to the nearest float,
    which fails when that is not finite. *)
Definition int_mul (n : Z) (x : spec_float) : option spec_float :=
  match finite_or_none (of_Z n) with
  | Some c => Some (mul c x)
  | None => None
  end.

(** [np.dot] of two vectors, accumulated from left to right (the order in
    which the BLAS routine groups the sum is not fixed by numpy; no property
    below depends on it). *)
Definition dot (u v : list spec_float) : spec_float :=
  fold_left (fun acc p => add acc (mul (fst p) (snd p))) (combine u v)
            (S754_zero false).



End B64.

Definition binary64 : float_ops := {|
  flt := spec_float;
  fone := B64.of_Z 1;
  fmul := B64.mul;
  fadd := B64.add;
  imul := B64.int_mul;
  int_half := B64.half;
  fpow := B64.pow;
  np_dot := B64.dot
|}.

(** A provider with the shape of modepy's output for the point counts 1 and
    3.  For [m = 1] modepy returns the nodes -1, 1 with the weights 1, 1; for
    [m = 3] it returns [m + 1] nodes from 1 down to -1 with their weights,
    here the Clenshaw-Curtis values 1, 1/2, -1/2, -1 and 1/9, 8/9, 8/9, 1/9
    rounded to binary64 (the floats modepy computes can differ from these in
    the last bits).  Other point counts are not tabulated. *)
Definition modepy_table (m : Z) : rule1d binary64 :=
  if m =? 1 then
    ([B64.of_Z (-1); B64.of_Z 1], [B64.of_Z 1; B64.of_Z 1])
  else if m =? 3 then
    ([B64.of_Z 1; B64.of_scaled 1 (-1); B64.of_scaled (-1) (-1); B64.of_Z (-1)],
     [B64.div (B64.of_Z 1) (B64.of_Z 9); B64.div (B64.of_Z 8) (B64.of_Z 9);
      B64.div (B64.of_Z 8) (B64.of_Z 9); B64.div (B64.of_Z 1) (B64.of_Z 9)])
  else ([], []).




(** ** Specification-side definitions *)

(** The binomial coefficient by Pascal's rule. *)
Fixpoint binom (n k : nat) : nat :=
  match n, k with
  | _, O => 1
  | O, S _ => 0
  | S n', S k' => binom n' k' + binom n' k
  end%nat.

(** The Smolyak coefficient of a multi-index of sum [s], written with
    Pascal's binomial coefficient. *)
Definition smolyak_value (dim level s : Z) : Z :=
  (-1) ^ (level + dim - s) *
  Z.of_nat (binom (Z.to_nat (dim - 1)) (Z.to_nat (level + dim - s))).


(** The point count the growth rule gives at a level [l >= 1]. *)
Definition point_count (l : Z) : Z :=
  if l =? 1 then 1 else 2 ^ (l - 1) + 1.

(** [choose n k] is the binomial coefficient on integers, zero for a
    negative [n]. *)
Definition choose (n : Z) (k : nat) : Z :=
  if n <? 0 then 0 else Z.of_nat (binom (Z.to_nat n) k).

(** What [tensor_product_rule] computes from the arrays [rs] that the
    one-dimensional rule returned for a multi-index of [n] levels. *)
Definition tensor_value (A : float_ops) (rs : list (rule1d A)) (n : nat)
    (a b : Z) : result (list (list (flt A)) * list (flt A)) :=
  if (a =? -1) && (b =? 1) then
    Ok (product (map fst rs), map (fprod A) (product (map snd rs)))
  else
    match int_half A (b - a), int_half A (a + b) with
    | Some h, Some m =>
        match fpow A h n with
        | Some p =>
            Ok (map (map (fun x => fadd A (fmul A h x) m)) (product (map fst rs)),
                map (fun t => fmul A (fprod A t) p) (product (map snd rs)))
        | None => Raise FloatOverflow
        end
    | _, _ => Raise FloatOverflow
    end.

(** [ws] are the weights [w], each multiplied by the integer [c]. *)
Definition scaled_by (A : float_ops) (c : Z) (w ws : list (flt A)) : Prop :=
  Forall2 (fun wi si => imul A c wi = Some si) w ws.

(** A level at which the provider returns as many nodes as weights, and at
    least one. *)
Definition paired_at (A : float_ops) (make : Z -> rule1d A) (i : Z) : Prop :=
  length (fst (make (point_count i))) = length (snd (make (point_count i))) /\
  snd (make (point_count i)) <> [].


(** * Properties *)

(** ** Small tactics and facts on comparisons *)

Ltac case_bool b := let E := fresh "E" in destruct b eqn:E.

Lemma py_lt_false (a b : pynum) :
  py_lt a b = false <-> (num_val b <= num_val a)%Q.
Proof.
  unfold py_lt. rewrite negb_false_iff. apply Qle_bool_iff.
Qed.

Lemma py_lt_true (a b : pynum) :
  py_lt a b = true <-> (num_val a < num_val b)%Q.
Proof.
  unfold py_lt. rewrite negb_true_iff. split; intros H.
  - apply Qnot_le_lt. intros L. apply Qle_bool_iff in L. congruence.
  - case_bool (Qle_bool (num_val b) (num_val a)); auto.
    apply Qle_bool_iff in E. exfalso. eapply Qlt_not_le; eauto.
Qed.

Lemma py_lt_int (a b : Z) : py_lt (PyInt a) (PyInt b) = (a <? b).
Proof.
  case_bool (a <? b).
  - apply py_lt_true. simpl. rewrite <- Zlt_Qlt. lia.
  - apply py_lt_false. simpl. rewrite <- Zle_Qle. lia.
Qed.

(** ** The growth rule *)

(** C4: the growth rule returns 1 at level 1 and [2^(level-1) + 1] from level
    2 on (3, 5, 9 at levels 2, 3, 4), and raises a [ValueError] below level 1,
    in particular at level 0. *)
Theorem growth_rule_spec :
  closed_non_linear_growth_rule 1 = Ok 1 /\
  (forall level, 2 <= level ->
     closed_non_linear_growth_rule level = Ok (2 ^ (level - 1) + 1)) /\
  closed_non_linear_growth_rule 2 = Ok 3 /\
  closed_non_linear_growth_rule 3 = Ok 5 /\
  closed_non_linear_growth_rule 4 = Ok 9 /\
  (forall level, level < 1 ->
     closed_non_linear_growth_rule level = Raise LevelBelowOne) /\
  closed_non_linear_growth_rule 0 = Raise LevelBelowOne /\
  exn_class LevelBelowOne = ValueError.
Proof.
  repeat split; try reflexivity; intros level H;
    unfold closed_non_linear_growth_rule.
  - replace (level <? 1) with false by lia.
    replace (level =? 1) with false by lia. reflexivity.
  - replace (level <? 1) with true by lia. reflexivity.
Qed.

Lemma growth_rule_spec_witness :
  closed_non_linear_growth_rule 6 = Ok 33 /\
  closed_non_linear_growth_rule (-2) = Raise LevelBelowOne.
Proof.
  destruct growth_rule_spec as (_ & Hge & _ & _ & _ & Hlt & _).
  split; [apply (Hge 6); lia | apply (Hlt (-2)); lia].
Defined.

(** C6, as the spec states it, fails: level 2 has three points, not one. *)
Lemma growth_levels_1_2_not_both_one :
  ~ (closed_non_linear_growth_rule 1 = Ok 1 /\
     closed_non_linear_growth_rule 2 = Ok 1).
Proof. intros [_ H]. discriminate H. Qed.

(** C6 (amended): the growth rule yields point count 1 at level 1 and point
    count 3 at level 2. *)
Theorem growth_levels_1_2 :
  closed_non_linear_growth_rule 1 = Ok 1 /\
  closed_non_linear_growth_rule 2 = Ok 3.
Proof. split; reflexivity. Qed.

(** ** The index set *)

Lemma In_py_range (lo hi x : Z) : In x (py_range lo hi) <-> lo <= x < hi.
Proof.
  unfold py_range. rewrite in_map_iff. split.
  - intros (i & <- & Hi). apply in_seq in Hi. lia.
  - intros H. exists (Z.to_nat (x - lo)). split; [lia|].
    apply in_seq. lia.
Qed.

Lemma NoDup_py_range (lo hi : Z) : NoDup (py_range lo hi).
Proof.
  unfold py_range. apply Injective_map_NoDup; [|apply seq_NoDup].
  intros i j H. lia.
Qed.

Lemma In_product {A : Type} (ls : list (list A)) (t : list A) :
  In t (product ls) <-> Forall2 (@In A) t ls.
Proof.
  revert t. induction ls as [|l ls IH]; intros t; simpl.
  - split; [intros [<-|[]]; constructor | intros H; inversion H; auto].
  - rewrite in_flat_map. split.
    + intros (x & Hx & Ht). apply in_map_iff in Ht as (t' & <- & Ht').
      constructor; [assumption | now apply IH].
    + intros H. inversion H as [|x l' t' ls' Hx Ht']; subst.
      exists x. split; [assumption|]. apply in_map, IH, Ht'.
Qed.

Lemma NoDup_product {A : Type} (ls : list (list A)) :
  Forall (@NoDup A) ls -> NoDup (product ls).
Proof.
  induction 1 as [|l ls Hl _ IH]; simpl.
  - constructor; [intros [] | constructor].
  - induction Hl as [|x l Hx _ IHl]; simpl; [constructor|].
    apply NoDup_app.
    + apply Injective_map_NoDup; [|exact IH].
      intros u v E. now inversion E.
    + exact IHl.
    + intros t Ht Ht'. apply in_map_iff in Ht as (u & <- & _).
      apply in_flat_map in Ht' as (y & Hy & Hu).
      apply in_map_iff in Hu as (v & E & _). inversion E; subst. contradiction.
Qed.

Lemma Forall2_In_repeat {A : Type} (r : list A) (n : nat) (t : list A) :
  Forall2 (@In A) t (repeat r n) <-> length t = n /\ Forall (fun x => In x r) t.
Proof.
  revert t. induction n as [|n IH]; intros t; simpl.
  - split.
    + intros H. inversion H. split; [reflexivity | constructor].
    + intros [H _]. destruct t; [constructor | discriminate].
  - split.
    + intros H. inversion H as [|x l' t' ls' Hx Ht']; subst.
      apply IH in Ht' as [<- Hall]. split; [reflexivity | now constructor].
    + intros [H Hall]. destruct t as [|x t]; [discriminate|].
      inversion Hall; subst. constructor; [assumption|].
      apply IH. split; [now inversion H | assumption].
Qed.

Lemma index_set_eq (dim level : Z) :
  0 <= dim ->
  index_set dim level =
  Ok (filter (fun idx => (level + 1 <=? zsum idx) && (zsum idx <=? level + dim))
        (product (repeat (py_range 1 (level + dim + 1)) (Z.to_nat dim)))).
Proof.
  intros H. unfold index_set, product_repeat.
  replace (dim <? 0) with false by lia. reflexivity.
Qed.

Lemma In_index_set (dim level : Z) (l : list (list Z)) (idx : list Z) :
  0 <= dim -> index_set dim level = Ok l ->
  In idx l <->
  (Z.of_nat (length idx) = dim /\
   Forall (fun i => 1 <= i <= level + dim) idx /\
   level + 1 <= zsum idx <= level + dim).
Proof.
  intros Hd E. rewrite index_set_eq in E by assumption.
  injection E as <-. rewrite filter_In, In_product, Forall2_In_repeat.
  rewrite andb_true_iff, Z.leb_le, Z.leb_le.
  assert (R : Forall (fun x => In x (py_range 1 (level + dim + 1))) idx <->
              Forall (fun i => 1 <= i <= level + dim) idx).
  { rewrite !Forall_forall. split; intros H x Hx; specialize (H x Hx).
    - apply In_py_range in H. lia.
    - apply In_py_range. lia. }
  rewrite R. intuition lia.
Qed.

(** Membership in the index set, for [dim >= 1]. *)
Lemma index_set_members (dim level : Z) :
  1 <= dim -> 1 <= level ->
  exists l, index_set dim level = Ok l /\ NoDup l /\
    forall idx, In idx l <->
      (Z.of_nat (length idx) = dim /\
       Forall (fun i => 1 <= i <= level + dim) idx /\
       level + 1 <= zsum idx <= level + dim).
Proof.
  intros Hd _. eexists. split; [apply index_set_eq; lia|]. split.
  - apply NoDup_filter, NoDup_product, Forall_forall.
    intros r Hr. apply repeat_spec in Hr. subst r. apply NoDup_py_range.
  - intros idx. apply In_index_set; [lia | apply index_set_eq; lia].
Qed.

(** C2: for [dim >= 1] and [level >= 1], [index_set] returns (without
    repetition) exactly the [dim]-tuples with components in [1, level+dim]
    whose sum lies in [level+1, level+dim]. *)
Theorem index_set_spec (dim level : Z) :
  1 <= dim -> 1 <= level ->
  exists l, index_set dim level = Ok l /\ NoDup l /\
    forall idx, In idx l <->
      (Z.of_nat (length idx) = dim /\
       Forall (fun i => 1 <= i <= level + dim) idx /\
       level + 1 <= zsum idx <= level + dim).
Proof. intros Hd Hl. exact (index_set_members dim level Hd Hl). Qed.

Lemma index_set_spec_witness :
  exists l, index_set 2 1 = Ok l /\ NoDup l /\
    forall idx, In idx l <->
      (Z.of_nat (length idx) = 2 /\
       Forall (fun i => 1 <= i <= 1 + 2) idx /\
       1 + 1 <= zsum idx <= 1 + 2).
Proof. apply (index_set_spec 2 1); lia. Defined.

Lemma singleton_by_members {A : Type} (l : list A) (v : A) :
  NoDup l -> (forall x, In x l <-> x = v) -> l = [v].
Proof.
  intros N H. destruct l as [|x [|y l]].
  - exfalso. apply (H v). reflexivity.
  - f_equal. apply H. now left.
  - exfalso. assert (x = v) by (apply H; simpl; auto).
    assert (y = v) by (apply H; simpl; auto). subst.
    inversion N as [|? ? Hn _]. apply Hn. now left.
Qed.

(** C5, as the spec states it, fails in both halves: [index_set 2 3] has 7
    elements, and [index_set 1 1] is [(2,)], not [(1,)]. *)
Lemma index_set_sizes_refuted :
  ~ (exists l, index_set 2 3 = Ok l /\ length l = 4%nat) /\
  ~ (forall L, 1 <= L -> index_set 1 L = Ok [[L]]).
Proof.
  split.
  - intros (l & E & Hl). vm_compute in E. injection E as <-. discriminate Hl.
  - intros H. specialize (H 1 ltac:(lia)). vm_compute in H. discriminate H.
Qed.

(** C5 (amended): [index_set 2 3] has exactly 7 elements (the pairs over
    [1,5] with sum 4 or 5), and for every [L >= 1], [index_set 1 L] is the
    single multi-index [(L+1,)]. *)
Theorem index_set_sizes :
  (exists l, index_set 2 3 = Ok l /\ length l = 7%nat) /\
  (forall L, 1 <= L -> index_set 1 L = Ok [[L + 1]]).
Proof.
  split.
  - eexists. split; reflexivity.
  - intros L HL.
    destruct (index_set_members 1 L) as (l & E & N & M); [lia | lia |].
    rewrite E. f_equal. apply singleton_by_members; [assumption|].
    intros idx. rewrite M. split.
    + intros (Hlen & Hall & Hsum).
      destruct idx as [|i [|j idx]]; try discriminate Hlen.
      * simpl in Hsum. f_equal. lia.
      * simpl length in Hlen. lia.
    + intros ->. simpl. repeat split; try lia.
      constructor; [lia | constructor].
Qed.

Lemma index_set_sizes_witness : index_set 1 4 = Ok [[4 + 1]].
Proof.
  destruct index_set_sizes as [_ H]. apply (H 4). lia.
Defined.

(** ** Binomial coefficients and [math.comb] *)

Lemma binom_small (n k : nat) : (n < k)%nat -> binom n k = 0%nat.
Proof.
  revert k. induction n as [|n IH]; intros [|k] H; simpl; try lia.
  rewrite !IH by lia. reflexivity.
Qed.

Lemma binom_diag (n : nat) : binom n n = 1%nat.
Proof.
  induction n as [|n IH]; simpl; [reflexivity|].
  rewrite IH, binom_small by lia. reflexivity.
Qed.

Lemma binom_fact (n k : nat) :
  (k <= n)%nat -> (binom n k * (fact k * fact (n - k)) = fact n)%nat.
Proof.
  revert k. induction n as [|n IH]; intros [|k] H; try lia.
  - simpl. lia.
  - rewrite Nat.sub_0_r. simpl binom. simpl fact at 1. lia.
  - destruct (Nat.eq_dec k n) as [->|Hne].
    + simpl binom. rewrite binom_diag, binom_small by lia.
      rewrite Nat.sub_diag. simpl fact at 2. lia.
    + assert (H1 := IH k ltac:(lia)). assert (H2 := IH (S k) ltac:(lia)).
      replace (n - k)%nat with (S (n - S k)) in H1 by lia.
      replace (S n - S k)%nat with (S (n - S k)) by lia.
      change (binom (S n) (S k)) with (binom n k + binom n (S k))%nat.
      change (fact (S n)) with (S n * fact n)%nat.
      change (fact (S k)) with (S k * fact k)%nat in *.
      change (fact (S (n - S k))) with (S (n - S k) * fact (n - S k))%nat in *.
      replace (S n) with (S k + S (n - S k))%nat at 2 by lia.
      nia.
Qed.

Lemma comb_binom (n k : Z) :
  0 <= n -> 0 <= k ->
  comb n k = Ok (Z.of_nat (binom (Z.to_nat n) (Z.to_nat k))).
Proof.
  intros Hn Hk. unfold comb.
  replace ((n <? 0) || (k <? 0)) with false by lia.
  case_bool (k <=? n).
  - do 2 f_equal. apply Z.leb_le in E.
    assert (Hle : (Z.to_nat k <= Z.to_nat n)%nat) by lia.
    rewrite <- (binom_fact _ _ Hle). apply Nat.div_mul.
    pose proof (fact_neq_0 (Z.to_nat k)).
    pose proof (fact_neq_0 (Z.to_nat n - Z.to_nat k)). nia.
  - rewrite binom_small by lia. reflexivity.
Qed.

(** ** The Smolyak coefficient *)

Lemma smolyak_coeff_value (dim level : Z) (idx : list Z) :
  1 <= dim -> zsum idx <= level + dim ->
  smolyak_coeff dim level idx = Ok (smolyak_value dim level (zsum idx)).
Proof.
  intros Hd Hs. unfold smolyak_coeff, smolyak_value.
  rewrite comb_binom by lia. reflexivity.
Qed.

(** ** Facts on lists and on the error monad *)

Lemma bind_ok {A B : Type} (r : result A) (k : A -> result B) (v : B) :
  bind r k = Ok v -> exists x, r = Ok x /\ k x = Ok v.
Proof.
  destruct r as [x|e]; simpl; intros H; [exists x; auto | discriminate].
Qed.

Lemma mapM_length {A B : Type} (f : A -> result B) (l : list A) (ys : list B) :
  mapM f l = Ok ys -> length ys = length l.
Proof.
  revert ys. induction l as [|x l IH]; intros ys H; simpl in H.
  - injection H as <-. reflexivity.
  - apply bind_ok in H as (y & _ & H). apply bind_ok in H as (ys' & E & H).
    injection H as <-. simpl. f_equal. now apply IH.
Qed.

Lemma Forall_exists_Forall2 {A B : Type} (P : A -> B -> Prop) (l : list A) :
  Forall (fun x => exists y, P x y) l -> exists ys, Forall2 P l ys.
Proof.
  induction 1 as [|x l [y Hy] _ [ys IH]].
  - exists []. constructor.
  - exists (y :: ys). now constructor.
Qed.

Lemma Forall2_conj_r {A B : Type} (P : A -> B -> Prop) (Q : B -> Prop)
    (l : list A) (rs : list B) :
  Forall2 (fun x r => P x r /\ Q r) l rs -> Forall2 P l rs /\ Forall Q rs.
Proof.
  induction 1 as [|x r l rs [Hp Hq] _ [IH1 IH2]]; split; constructor; auto.
Qed.

Lemma length_product {A : Type} (ls : list (list A)) :
  length (product ls) = fold_right Nat.mul 1%nat (map (@length A) ls).
Proof.
  induction ls as [|l ls IH]; [reflexivity|].
  simpl. rewrite <- IH. clear IH.
  induction l as [|x l IHl]; [reflexivity|].
  simpl. rewrite length_app, length_map, IHl. reflexivity.
Qed.

Lemma product_nonempty {A : Type} (ls : list (list A)) :
  Forall (fun l => l <> []) ls -> product ls <> [].
Proof.
  induction 1 as [|l ls Hl _ IH]; [discriminate|].
  destruct l as [|x l]; [contradiction|].
  destruct (product ls) as [|t ts] eqn:E; [contradiction|].
  simpl. rewrite E. discriminate.
Qed.

Lemma product_empty_iff {A : Type} (ls : list (list A)) :
  product ls = [] <-> Exists (fun l => l = []) ls.
Proof.
  split.
  - intros H. induction ls as [|l ls IH]; [discriminate|].
    destruct l as [|x l]; [now left|]. right. apply IH.
    simpl in H. apply app_eq_nil in H as [H _].
    destruct (product ls); [reflexivity | discriminate].
  - induction 1 as [l ls ->|l ls _ IH]; [reflexivity|].
    simpl. rewrite IH. induction l; simpl; auto.
Qed.

Lemma product_row_length {A : Type} (ls : list (list A)) (t : list A) :
  In t (product ls) -> length t = length ls.
Proof. intros H. apply In_product in H. eapply Forall2_length; eauto. Qed.

Lemma map_fst_combine_same {A B : Type} (x : list A) (w : list B) :
  length x = length w -> map fst (combine x w) = x.
Proof.
  revert w. induction x as [|u x IH]; intros [|v w] H; try discriminate.
  - reflexivity.
  - simpl. f_equal. apply IH. now inversion H.
Qed.

Lemma map_snd_combine_same {A B : Type} (x : list A) (w : list B) :
  length x = length w -> map snd (combine x w) = w.
Proof.
  revert w. induction x as [|u x IH]; intros [|v w] H; try discriminate.
  - reflexivity.
  - simpl. f_equal. apply IH. now inversion H.
Qed.

Lemma Forall_map_fst_combine {A B : Type} (P : A -> Prop) (x : list A)
    (w : list B) :
  Forall P x -> Forall P (map fst (combine x w)).
Proof.
  intros H. apply Forall_forall. intros p Hp.
  apply in_map_iff in Hp as ([u v] & <- & Huv). apply in_combine_l in Huv.
  rewrite Forall_forall in H. now apply H.
Qed.

Lemma mapM_Forall2 {R B : Type} (rule : Z -> result R) (f : R -> B)
    (idx : list Z) (rs : list R) :
  Forall2 (fun l r => rule l = Ok r) idx rs ->
  mapM (fun l => r <- rule l ;; Ok (f r)) idx = Ok (map f rs).
Proof.
  induction 1 as [|l r idx rs Hl _ IH]; [reflexivity|].
  simpl. rewrite Hl, IH. reflexivity.
Qed.

Lemma mapM_inv {R B : Type} (rule : Z -> result R) (f : R -> B)
    (idx : list Z) (ys : list B) :
  mapM (fun l => r <- rule l ;; Ok (f r)) idx = Ok ys ->
  exists rs, Forall2 (fun l r => rule l = Ok r) idx rs /\ ys = map f rs.
Proof.
  revert ys. induction idx as [|l idx IH]; intros ys H; simpl in H.
  - injection H as <-. exists []. split; [constructor | reflexivity].
  - apply bind_ok in H as (y & Ey & H). apply bind_ok in H as (ys' & E & H).
    injection H as <-. apply bind_ok in Ey as (r & Er & Ey).
    injection Ey as <-. destruct (IH ys' E) as (rs & Hrs & ->).
    exists (r :: rs). split; [now constructor | reflexivity].
Qed.

Lemma mapM_ext_in {R B : Type} (f g : R -> result B) (l : list R) :
  (forall x, In x l -> f x = g x) -> mapM f l = mapM g l.
Proof.
  induction l as [|x l IH]; intros H; [reflexivity|].
  cbn [mapM]. rewrite (H x) by (now left).
  rewrite IH by (intros; apply H; now right). reflexivity.
Qed.

(** ** The checks of [tensor_product_rule] *)

Lemma tensor_empty_interval (A : float_ops) idx rule (a b : pynum) :
  (num_val b <= num_val a)%Q ->
  tensor_product_rule A idx rule a b = Raise EmptyInterval.
Proof.
  intros H. unfold tensor_product_rule.
  apply py_lt_false in H. rewrite H. reflexivity.
Qed.

Lemma tensor_non_integer (A : float_ops) idx rule (a b : pynum) :
  (num_val a < num_val b)%Q -> is_int a && is_int b = false ->
  tensor_product_rule A idx rule a b = Raise NonIntegerBounds.
Proof.
  intros H T. unfold tensor_product_rule.
  apply py_lt_true in H. rewrite H. simpl.
  destruct a, b; simpl in T; try discriminate; reflexivity.
Qed.

Lemma tensor_checks_pass (A : float_ops) idx rule (a b : Z) :
  a < b ->
  tensor_product_rule A idx rule (PyInt a) (PyInt b)
  = tensor_build A idx rule a b.
Proof.
  intros H. unfold tensor_product_rule. rewrite py_lt_int.
  replace (a <? b) with true by lia. reflexivity.
Qed.

(** ** The body of [tensor_product_rule] *)

Lemma np_prod_axis1_Ok (A : float_ops) (rows : list (list (flt A))) :
  rows <> [] -> np_prod_axis1 A rows = Ok (map (fprod A) rows).
Proof. destruct rows; [contradiction | reflexivity]. Qed.

Lemma np_prod_axis1_nil (A : float_ops) (rows : list (list (flt A))) :
  rows = [] -> np_prod_axis1 A rows = Raise AxisOutOfBounds.
Proof. intros ->. reflexivity. Qed.

Lemma product_snd_nonempty (A : float_ops) (rs : list (rule1d A)) :
  Forall (fun r => snd r <> []) rs -> product (map snd rs) <> [].
Proof.
  intros Hne. apply product_nonempty, Forall_forall.
  intros w Hw. apply in_map_iff in Hw as (r & <- & Hr).
  rewrite Forall_forall in Hne. now apply Hne.
Qed.

(** Once the rule has returned non-empty weight arrays on every level, the
    body computes [tensor_value]. *)
Lemma tensor_build_Ok (A : float_ops) (idx : list Z)
    (rule : Z -> result (rule1d A)) (a b : Z) (rs : list (rule1d A)) :
  Forall2 (fun l r => rule l = Ok r) idx rs ->
  Forall (fun r => snd r <> []) rs ->
  tensor_build A idx rule a b = tensor_value A rs (length idx) a b.
Proof.
  intros H Hne. unfold tensor_build, tensor_value.
  rewrite (mapM_Forall2 rule fst idx rs H), (mapM_Forall2 rule snd idx rs H).
  cbn [bind]. rewrite np_prod_axis1_Ok by (now apply product_snd_nonempty).
  cbn [bind]. destruct ((a =? -1) && (b =? 1)); cbn [negb]; [reflexivity|].
  unfold py_int_half, py_float_pow.
  destruct (int_half A (b - a)) as [h|]; cbn [bind]; [|reflexivity].
  destruct (int_half A (a + b)) as [m|]; cbn [bind]; [|reflexivity].
  destruct (fpow A h (length idx)) as [p|]; cbn [bind]; [|reflexivity].
  rewrite map_map. reflexivity.
Qed.

Lemma tensor_build_axis (A : float_ops) (idx : list Z)
    (rule : Z -> result (rule1d A)) (a b : Z) (rs : list (rule1d A)) :
  Forall2 (fun l r => rule l = Ok r) idx rs ->
  Exists (fun r => snd r = []) rs ->
  tensor_build A idx rule a b = Raise AxisOutOfBounds.
Proof.
  intros H Hex. unfold tensor_build.
  rewrite (mapM_Forall2 rule fst idx rs H), (mapM_Forall2 rule snd idx rs H).
  cbn [bind]. rewrite np_prod_axis1_nil; [reflexivity|].
  apply product_empty_iff. apply Exists_exists in Hex as (r & Hr & Hnil).
  apply Exists_exists. exists (snd r). split; [now apply in_map | exact Hnil].
Qed.

(** [tensor_value] either is an overflow or maps the two Cartesian products
    element by element. *)
Lemma tensor_value_cases (A : float_ops) (rs : list (rule1d A)) (n : nat)
    (a b : Z) :
  tensor_value A rs n a b = Raise FloatOverflow \/
  exists (phi : flt A -> flt A) (psi : list (flt A) -> flt A),
    tensor_value A rs n a b
    = Ok (map (map phi) (product (map fst rs)), map psi (product (map snd rs))).
Proof.
  unfold tensor_value. destruct ((a =? -1) && (b =? 1)).
  - right. exists (fun x => x), (fprod A). do 2 f_equal.
    rewrite <- (map_id (product (map fst rs))) at 1.
    apply map_ext. intros t. symmetry. apply map_id.
  - destruct (int_half A (b - a)) as [h|]; [|now left].
    destruct (int_half A (a + b)) as [m|]; [|now left].
    destruct (fpow A h n) as [p|]; [|now left].
    right. eauto.
Qed.

(** C3: for [dim >= 1], [level >= 1] and every multi-index [idx] of the
    index set, the coefficient the combiner computes is
    [(-1)^(level+dim-s) * C(dim-1, level+dim-s)] with [s = sum(idx)] and [C]
    the binomial coefficient (first argument [dim-1]), and the loop
    multiplies every weight of that multi-index's tensor rule by it. *)
Theorem smolyak_coefficient_spec (A : float_ops) (make : Z -> rule1d A)
    (dim level : Z) (a b : pynum) (l : list (list Z)) (idx : list Z) :
  1 <= dim -> 1 <= level -> index_set dim level = Ok l -> In idx l ->
  let e := level + dim - zsum idx in
  let c := (-1) ^ e * Z.of_nat (binom (Z.to_nat (dim - 1)) (Z.to_nat e)) in
  0 <= e <= dim - 1 /\
  smolyak_coeff dim level idx = Ok c /\
  forall rest P W x w,
    tensor_product_rule A idx (clenshaw_curtis_rule A make) a b = Ok (x, w) ->
    sparse_loop A make dim level a b (idx :: rest) P W =
    (ws <- mapM (fun p => py_int_mul A c (snd p)) (combine x w) ;;
     sparse_loop A make dim level a b rest (P ++ map fst (combine x w))
       (W ++ ws)).
Proof.
  intros Hd Hl E Hin e c.
  apply (In_index_set dim level l idx) in Hin as (_ & _ & Hs); [|lia|exact E].
  assert (Hc : smolyak_coeff dim level idx = Ok c).
  { apply smolyak_coeff_value; lia. }
  split; [unfold e; lia|]. split; [exact Hc|].
  intros rest P W x w Ht. simpl. rewrite Hc, Ht. reflexivity.
Qed.

Lemma smolyak_coefficient_spec_witness :
  smolyak_coeff 2 1 [1; 1] = Ok (-1).
Proof.
  refine (proj1 (proj2 (smolyak_coefficient_spec binary64 modepy_table 2 1
            (PyInt 0) (PyInt 1) [[1; 1]; [1; 2]; [2; 1]] [1; 1] _ _ _ _)));
    [lia | lia | reflexivity | simpl; auto].
Defined.

(** ** Error handling of [tensor_product_rule] *)

Lemma index_set_nonempty (dim level : Z) :
  1 <= dim -> 1 <= level ->
  exists idx rest, index_set dim level = Ok (idx :: rest).
Proof.
  intros Hd Hl. destruct (index_set_members dim level Hd Hl) as (l & E & _ & M).
  destruct l as [|idx rest]; [|eauto].
  exfalso. apply (M ((level + 1) :: repeat 1 (Z.to_nat (dim - 1)))).
  assert (Hsum : forall n, zsum (repeat 1 n) = Z.of_nat n).
  { induction n as [|n IH]; [reflexivity|].
    change (zsum (repeat 1 (S n))) with (1 + zsum (repeat 1 n)). lia. }
  repeat split.
  - simpl. rewrite repeat_length. lia.
  - constructor; [lia|]. apply Forall_forall. intros x Hx.
    apply repeat_spec in Hx. lia.
  - change (level + 1 <= level + 1 + zsum (repeat 1 (Z.to_nat (dim - 1)))).
    rewrite Hsum. lia.
  - change (level + 1 + zsum (repeat 1 (Z.to_nat (dim - 1))) <= level + dim).
    rewrite Hsum. lia.
Qed.

Lemma sparse_grid_propagates (A : float_ops) (make : Z -> rule1d A)
    (dim level : Z) (a b : pynum) (e : exn) :
  1 <= dim -> 1 <= level ->
  (forall idx,
     tensor_product_rule A idx (clenshaw_curtis_rule A make) a b = Raise e) ->
  sparse_grid_nodes_weights A make dim level a b = Raise e.
Proof.
  intros Hd Hl H.
  destruct (index_set_nonempty dim level Hd Hl) as (idx & rest & E).
  unfold sparse_grid_nodes_weights. rewrite E. simpl.
  destruct (In_index_set dim level _ idx ltac:(lia) E) as [(_ & _ & Hs) _];
    [now left|].
  rewrite smolyak_coeff_value by lia. simpl. rewrite H. reflexivity.
Qed.

(** C9: [tensor_product_rule] raises the [ValueError] of the empty interval
    whenever [a >= b], the [TypeError] whenever [a < b] and an endpoint is
    not of type [int], and neither for integers [a < b], where the body runs
    and can only return or raise the [OverflowError] of its float
    operations; both checks are raised whatever the one-dimensional rule
    would do, and [sparse_grid_nodes_weights] lets them through. *)
Theorem tensor_product_rule_checks (A : float_ops) :
  (forall idx rule a b, (num_val b <= num_val a)%Q ->
     tensor_product_rule A idx rule a b = Raise EmptyInterval) /\
  exn_class EmptyInterval = ValueError /\
  tensor_product_rule A [1] (fun _ => Raise LevelBelowOne) (PyInt 1) (PyInt 0)
    = Raise EmptyInterval /\
  (forall idx rule a b, (num_val a < num_val b)%Q ->
     is_int a && is_int b = false ->
     tensor_product_rule A idx rule a b = Raise NonIntegerBounds) /\
  exn_class NonIntegerBounds = TypeError /\
  tensor_product_rule A [1] (fun _ => Raise LevelBelowOne) (PyFloat (1 # 2)) (PyInt 1)
    = Raise NonIntegerBounds /\
  (forall idx rule (a b : Z), a < b ->
     tensor_product_rule A idx rule (PyInt a) (PyInt b)
       = tensor_build A idx rule a b /\
     (Forall (fun l => exists r, rule l = Ok r /\ snd r <> []) idx ->
      (exists g w,
         tensor_product_rule A idx rule (PyInt a) (PyInt b) = Ok (g, w)) \/
      tensor_product_rule A idx rule (PyInt a) (PyInt b)
        = Raise FloatOverflow)) /\
  exn_class FloatOverflow = OverflowError /\
  (forall make dim level a b, 1 <= dim -> 1 <= level ->
     ((num_val b <= num_val a)%Q ->
      sparse_grid_nodes_weights A make dim level a b = Raise EmptyInterval) /\
     ((num_val a < num_val b)%Q -> is_int a && is_int b = false ->
      sparse_grid_nodes_weights A make dim level a b = Raise NonIntegerBounds)).
Proof.
  split; [exact (tensor_empty_interval A)|].
  split; [reflexivity|]. split; [reflexivity|].
  split; [exact (tensor_non_integer A)|].
  split; [reflexivity|]. split; [reflexivity|]. split; [|split; [reflexivity|]].
  - intros idx rule a b Hab. rewrite tensor_checks_pass by assumption.
    split; [reflexivity|]. intros Hall.
    apply Forall_exists_Forall2 in Hall as (rs & Hrs).
    apply Forall2_conj_r in Hrs as [Hrule Hne].
    rewrite (tensor_build_Ok A idx rule a b rs Hrule Hne).
    destruct (tensor_value_cases A rs (length idx) a b)
      as [Hov|(phi & psi & Hok)]; [now right|].
    left. rewrite Hok. eauto.
  - intros make dim level a b Hd Hl. split.
    + intros Hab. apply sparse_grid_propagates; try assumption.
      intros idx. now apply tensor_empty_interval.
    + intros Hab Hty. apply sparse_grid_propagates; try assumption.
      intros idx. now apply tensor_non_integer.
Qed.

Lemma tensor_product_rule_checks_witness :
  tensor_product_rule binary64 [2; 1] (clenshaw_curtis_rule binary64 modepy_table)
    (PyInt 3) (PyInt 3) = Raise EmptyInterval /\
  tensor_product_rule binary64 [2; 1] (clenshaw_curtis_rule binary64 modepy_table)
    (PyInt 0) (PyBool true) = Raise NonIntegerBounds /\
  sparse_grid_nodes_weights binary64 modepy_table 2 1 (PyFloat (1 # 2)) (PyInt 1)
    = Raise NonIntegerBounds.
Proof.
  destruct (tensor_product_rule_checks binary64)
    as (Hv & _ & _ & Ht & _ & _ & _ & _ & Hs).
  split; [|split].
  - apply Hv. simpl. apply Qle_refl.
  - apply Ht; reflexivity.
  - apply (Hs modepy_table 2 1); [lia | lia | reflexivity | reflexivity].
Defined.

(** C10: the domain check comes first: when [a >= b] the [ValueError] of the
    empty interval is raised even if an endpoint is not of type [int], as for
    [a = 1.5], [b = 0.5]. *)
Theorem domain_check_precedes_type_check (A : float_ops) idx rule
    (a b : pynum) :
  (num_val b <= num_val a)%Q -> is_int a && is_int b = false ->
  tensor_product_rule A idx rule a b = Raise EmptyInterval /\
  exn_class EmptyInterval = ValueError /\
  tensor_product_rule A idx rule a b <> Raise NonIntegerBounds.
Proof.
  intros Hab _. rewrite tensor_empty_interval by assumption.
  repeat split. discriminate.
Qed.

Lemma domain_check_precedes_type_check_witness :
  tensor_product_rule binary64 [1] (clenshaw_curtis_rule binary64 modepy_table)
    (PyFloat (3 # 2)) (PyFloat (1 # 2)) = Raise EmptyInterval.
Proof.
  refine (proj1 (domain_check_precedes_type_check binary64 [1]
            (clenshaw_curtis_rule binary64 modepy_table)
            (PyFloat (3 # 2)) (PyFloat (1 # 2)) _ _)).
  - simpl. unfold Qle. simpl. lia.
  - reflexivity.
Defined.

(** ** The tensor-product rule in binary64 *)




(** ** The Smolyak coefficients sum to one *)

Lemma zsum_cons (x : Z) (l : list Z) : zsum (x :: l) = x + zsum l.
Proof. reflexivity. Qed.

Lemma zsum_app (l1 l2 : list Z) : zsum (l1 ++ l2) = zsum l1 + zsum l2.
Proof.
  induction l1 as [|x l1 IH]; [reflexivity|].
  simpl app. rewrite !zsum_cons, IH. lia.
Qed.

Lemma zsum_ge_length (idx : list Z) :
  Forall (fun i => 1 <= i) idx -> Z.of_nat (length idx) <= zsum idx.
Proof.
  induction 1 as [|i idx Hi _ IH]; [reflexivity|].
  rewrite zsum_cons. simpl length. lia.
Qed.

Lemma zsum_flat_map {A B : Type} (f : B -> Z) (g : A -> list B) (l : list A) :
  zsum (map f (flat_map g l)) = zsum (map (fun x => zsum (map f (g x))) l).
Proof.
  induction l as [|x l IH]; [reflexivity|].
  simpl. rewrite map_app, zsum_app, IH. reflexivity.
Qed.


Lemma py_range_cons (lo : Z) (k : nat) :
  py_range lo (lo + Z.of_nat (S k)) = lo :: py_range (lo + 1) (lo + 1 + Z.of_nat k).
Proof.
  unfold py_range.
  replace (Z.to_nat (lo + Z.of_nat (S k) - lo)) with (S k) by lia.
  replace (Z.to_nat (lo + 1 + Z.of_nat k - (lo + 1))) with k by lia.
  simpl seq. simpl map. f_equal; [lia|].
  rewrite <- seq_shift, map_map. apply map_ext. intros i. lia.
Qed.







(** ** The combination of the tensor rules *)

Lemma growth_point_count (l : Z) :
  1 <= l -> closed_non_linear_growth_rule l = Ok (point_count l).
Proof.
  intros H. unfold closed_non_linear_growth_rule, point_count.
  replace (l <? 1) with false by lia. destruct (l =? 1); reflexivity.
Qed.

Lemma cc_rule_Ok (A : float_ops) (make : Z -> rule1d A) (l : Z) :
  1 <= l -> clenshaw_curtis_rule A make l = Ok (make (point_count l)).
Proof.
  intros H. unfold clenshaw_curtis_rule. rewrite growth_point_count by assumption.
  reflexivity.
Qed.

Lemma cc_rule_Forall2 (A : float_ops) (make : Z -> rule1d A) (idx : list Z) :
  Forall (fun l => 1 <= l) idx ->
  Forall2 (fun l r => clenshaw_curtis_rule A make l = Ok r) idx
          (map (fun l => make (point_count l)) idx).
Proof.
  induction 1 as [|l idx Hl _ IH]; simpl; constructor; auto.
  now apply cc_rule_Ok.
Qed.

Lemma length_product_fst_snd (A : float_ops) (rs : list (rule1d A)) :
  Forall (fun r => length (fst r) = length (snd r)) rs ->
  length (product (map fst rs)) = length (product (map snd rs)).
Proof.
  intros H. rewrite !length_product, !map_map. f_equal.
  induction H as [|r rs Hr _ IH]; simpl; congruence.
Qed.

Lemma tensor_cc_result (A : float_ops) (make : Z -> rule1d A) (idx : list Z)
    (a b : Z) :
  a < b -> Forall (fun i => 1 <= i /\ paired_at A make i) idx ->
  tensor_product_rule A idx (clenshaw_curtis_rule A make) (PyInt a) (PyInt b)
    = Raise FloatOverflow \/
  exists x w,
    tensor_product_rule A idx (clenshaw_curtis_rule A make) (PyInt a) (PyInt b)
      = Ok (x, w) /\
    length x = length w /\
    length x = fold_right Nat.mul 1%nat
                 (map (fun i => length (fst (make (point_count i)))) idx).
Proof.
  intros Hab Hidx.
  assert (Hpos : Forall (fun i => 1 <= i) idx).
  { eapply Forall_impl; [|exact Hidx]. intros i [Hi _]. exact Hi. }
  set (rs := map (fun l => make (point_count l)) idx).
  assert (Hrs := cc_rule_Forall2 A make idx Hpos). fold rs in Hrs.
  assert (Hne : Forall (fun r : rule1d A => snd r <> []) rs).
  { apply Forall_forall. intros r Hr. apply in_map_iff in Hr as (i & <- & Hi).
    rewrite Forall_forall in Hidx. now destruct (Hidx i Hi) as (_ & _ & Hw). }
  assert (Hpair : Forall (fun r : rule1d A => length (fst r) = length (snd r)) rs).
  { apply Forall_forall. intros r Hr. apply in_map_iff in Hr as (i & <- & Hi).
    rewrite Forall_forall in Hidx. now destruct (Hidx i Hi) as (_ & Hx & _). }
  rewrite tensor_checks_pass, (tensor_build_Ok A idx _ a b rs Hrs Hne)
    by assumption.
  destruct (tensor_value_cases A rs (length idx) a b)
    as [Hov|(phi & psi & Hok)]; [now left|].
  right. rewrite Hok. do 2 eexists. split; [reflexivity|].
  rewrite !length_map. split; [now apply length_product_fst_snd|].
  rewrite length_product. subst rs. rewrite !map_map. reflexivity.
Qed.

(** The products [coeff * wi] either all succeed or raise
    [OverflowError]. *)
Lemma mapM_int_mul (A : float_ops) {X : Type} (c : Z)
    (l : list (X * flt A)) :
  mapM (fun p => py_int_mul A c (snd p)) l = Raise FloatOverflow \/
  exists ws, mapM (fun p => py_int_mul A c (snd p)) l = Ok ws /\
             scaled_by A c (map snd l) ws.
Proof.
  induction l as [|p l IH].
  - right. exists []. split; [reflexivity | constructor].
  - cbn [mapM map]. unfold py_int_mul at 1 3.
    destruct (imul A c (snd p)) as [y|] eqn:Ey; [|now left].
    cbn [bind]. destruct IH as [Hov|(ws & E & Hs)].
    + left. rewrite Hov. reflexivity.
    + right. exists (y :: ws). rewrite E. split; [reflexivity|].
      constructor; assumption.
Qed.

(** The loop either overflows or appends, for every multi-index, the points
    of its tensor rule and its weights times the coefficient. *)
Lemma sparse_loop_combination (A : float_ops) (make : Z -> rule1d A)
    (dim level a b : Z) (idxs : list (list Z)) :
  a < b -> 1 <= dim ->
  Forall (fun idx => zsum idx <= level + dim /\
                     Forall (fun i => 1 <= i /\ paired_at A make i) idx) idxs ->
  forall P W,
    sparse_loop A make dim level (PyInt a) (PyInt b) idxs P W
      = Raise FloatOverflow \/
    exists rules scaled,
      Forall2 (fun idx xw =>
                 tensor_product_rule A idx (clenshaw_curtis_rule A make)
                   (PyInt a) (PyInt b) = Ok xw /\
                 length (fst xw) = length (snd xw) /\
                 length (fst xw)
                 = fold_right Nat.mul 1%nat
                     (map (fun i => length (fst (make (point_count i)))) idx))
              idxs rules /\
      Forall2 (fun p ws =>
                 scaled_by A (smolyak_value dim level (zsum (fst p)))
                           (snd (snd p)) ws)
              (combine idxs rules) scaled /\
      sparse_loop A make dim level (PyInt a) (PyInt b) idxs P W
      = Ok (P ++ flat_map fst rules, W ++ concat scaled).
Proof.
  intros Hab Hd. induction 1 as [|idx idxs [Hs Hidx] _ IH]; intros P W.
  - right. exists [], []. split; [constructor|]. split; [constructor|].
    cbn. rewrite !app_nil_r. reflexivity.
  - cbn [sparse_loop]. rewrite smolyak_coeff_value by assumption. cbn [bind].
    destruct (tensor_cc_result A make idx a b Hab Hidx)
      as [Hov|(x & w & Et & Lxw & Lx)].
    + left. rewrite Hov. reflexivity.
    + rewrite Et. cbn [bind].
      destruct (mapM_int_mul A (smolyak_value dim level (zsum idx))
                  (combine x w)) as [Hov|(ws & Ews & Hws)].
      * left. rewrite Hov. reflexivity.
      * rewrite Ews. cbn [bind].
        rewrite (map_snd_combine_same x w Lxw) in Hws.
        rewrite (map_fst_combine_same x w Lxw).
        destruct (IH (P ++ x) (W ++ ws))
          as [Hov|(rules & scaled & Hrules & Hscaled & E)]; [now left|].
        right. exists ((x, w) :: rules), (ws :: scaled). split.
        -- constructor; [|exact Hrules]. cbn [fst snd]. auto.
        -- split; [constructor; [exact Hws | exact Hscaled]|].
           rewrite E. cbn [flat_map concat fst snd].
           rewrite !app_assoc. reflexivity.
Qed.



Lemma modepy_table_paired (i : Z) :
  1 <= i <= 1 + 1 -> paired_at binary64 modepy_table i.
Proof.
  intros Hi. assert (Hc : i = 1 \/ i = 2) by lia.
  destruct Hc as [-> | ->]; split; [reflexivity | discriminate
                                    | reflexivity | discriminate].
Qed.


(** ** One dimension, level 1, on [0, 2] *)

Lemma map_fst_combine_firstn {X Y : Type} (x : list X) (w : list Y) :
  map fst (combine x w) = firstn (length w) x.
Proof.
  revert w. induction x as [|u x IH]; intros [|v w]; simpl; try reflexivity.
  now rewrite IH.
Qed.

Lemma map_snd_combine_firstn {X Y : Type} (x : list X) (w : list Y) :
  map snd (combine x w) = firstn (length x) w.
Proof.
  revert w. induction x as [|u x IH]; intros [|v w]; simpl; try reflexivity.
  now rewrite IH.
Qed.

Lemma flat_map_single {X Y : Type} (f : X -> Y) (l : list X) :
  flat_map (fun x => [f x]) l = map f l.
Proof. induction l as [|x l IH]; simpl; congruence. Qed.

Lemma mapM_total {X Y : Type} (f : X -> result Y) (g : X -> Y) (l : list X) :
  (forall x, f x = Ok (g x)) -> mapM f l = Ok (map g l).
Proof.
  intros H. induction l as [|x l IH]; [reflexivity|].
  cbn [mapM map]. rewrite H, IH. reflexivity.
Qed.

(** C8, as the spec states it, fails: with a provider of modepy's shape the
    rule has the four nodes 2, 3/2, 1/2, 0 with the weights 1/9, 8/9, 8/9,
    1/9, not the single node 1 with weight 2. *)
Lemma sparse_grid_1_1_not_single_node :
  sparse_grid_nodes_weights binary64 modepy_table 1 1 (PyInt 0) (PyInt 2)
  = Ok ([[B64.of_Z 2]; [B64.of_scaled 3 (-1)]; [B64.of_scaled 1 (-1)];
         [B64.of_Z 0]],
        [B64.div (B64.of_Z 1) (B64.of_Z 9); B64.div (B64.of_Z 8) (B64.of_Z 9);
         B64.div (B64.of_Z 8) (B64.of_Z 9); B64.div (B64.of_Z 1) (B64.of_Z 9)]) /\
  ~ (exists p w,
       sparse_grid_nodes_weights binary64 modepy_table 1 1 (PyInt 0) (PyInt 2)
       = Ok ([p], [w])).
Proof.
  split; [vm_compute; reflexivity|].
  intros (p & w & E). vm_compute in E. discriminate E.
Qed.

(** C8 (amended): for [dim = 1], [level = 1] on [0, 2] the only multi-index
    is [(2,)], with coefficient 1, so the rule is the provider's rule for the
    point count 3, cut to the shorter of its two arrays: every node [x] is
    sent to [1.0 * x + 1.0] and every weight is multiplied by 1.0.  It has as
    many nodes as that rule, whatever their number. *)
Theorem sparse_grid_1_1_on_0_2 (make : Z -> rule1d binary64)
    (xs ws : list spec_float) :
  make 3 = (xs, ws) -> ws <> [] ->
  let one := B64.of_Z 1 in
  index_set 1 1 = Ok [[2]] /\
  smolyak_coeff 1 1 [2] = Ok 1 /\
  sparse_grid_nodes_weights binary64 make 1 1 (PyInt 0) (PyInt 2)
  = Ok (firstn (length ws)
          (map (fun x => [B64.add (B64.mul one x) one]) xs),
        firstn (length xs)
          (map (fun w => B64.mul one (B64.mul (B64.mul one w) one)) ws)) /\
  length (firstn (length ws)
            (map (fun x => [B64.add (B64.mul one x) one]) xs))
  = Nat.min (length xs) (length ws).
Proof.
  intros H Hne one. split; [reflexivity|]. split; [reflexivity|]. split.
  - unfold sparse_grid_nodes_weights.
    change (index_set 1 1) with (Ok [[2]]). cbn [bind sparse_loop].
    change (smolyak_coeff 1 1 [2]) with (Ok 1). cbn [bind].
    rewrite tensor_checks_pass by lia.
    rewrite (tensor_build_Ok binary64 [2] _ 0 2 [(xs, ws)]).
    + unfold tensor_value.
      assert (Hh : int_half binary64 (2 - 0) = Some one) by reflexivity.
      assert (Hm : int_half binary64 (0 + 2) = Some one) by reflexivity.
      assert (Hp : fpow binary64 one (length [2]) = Some one) by reflexivity.
      rewrite Hh, Hm, Hp.
      cbn [andb Z.eqb bind map fst snd product].
      rewrite !flat_map_single, !map_map.
      rewrite (mapM_total _ (fun p => B64.mul one (snd p)))
        by (intros p; reflexivity).
      cbn [bind app].
      rewrite <- (map_map snd (B64.mul one)).
      rewrite map_fst_combine_firstn, map_snd_combine_firstn.
      rewrite !length_map, <- !firstn_map, !map_map. reflexivity.
    + constructor; [|constructor].
      unfold clenshaw_curtis_rule. cbn. now rewrite H.
    + constructor; [exact Hne | constructor].
  - rewrite length_firstn, length_map. apply Nat.min_comm.
Qed.

Lemma sparse_grid_1_1_on_0_2_witness :
  let one := B64.of_Z 1 in
  index_set 1 1 = Ok [[2]] /\
  smolyak_coeff 1 1 [2] = Ok 1 /\
  sparse_grid_nodes_weights binary64 modepy_table 1 1 (PyInt 0) (PyInt 2)
  = Ok (firstn (length (snd (modepy_table 3)))
          (map (fun x => [B64.add (B64.mul one x) one])
               (fst (modepy_table 3))),
        firstn (length (fst (modepy_table 3)))
          (map (fun w => B64.mul one (B64.mul (B64.mul one w) one))
               (snd (modepy_table 3)))) /\
  length (firstn (length (snd (modepy_table 3)))
            (map (fun x => [B64.add (B64.mul one x) one])
                 (fst (modepy_table 3))))
  = Nat.min (length (fst (modepy_table 3))) (length (snd (modepy_table 3))).
Proof.
  apply (sparse_grid_1_1_on_0_2 modepy_table
           (fst (modepy_table 3)) (snd (modepy_table 3)));
    [reflexivity | discriminate].
Defined.

(** * Further properties of the module *)

(** ** Shapes *)

Lemma Forall_or_Exists_nil (A : float_ops) (rs : list (rule1d A)) :
  Forall (fun r => snd r <> []) rs \/ Exists (fun r => snd r = []) rs.
Proof.
  induction rs as [|r rs [IH|IH]]; [left; constructor | |].
  - destruct (snd r) as [|w ws] eqn:E.
    + right. now left.
    + left. constructor; [rewrite E; discriminate | exact IH].
  - right. now right.
Qed.

Lemma tensor_build_inv (A : float_ops) (idx : list Z)
    (rule : Z -> result (rule1d A)) (a b : Z)
    (g : list (list (flt A))) (w : list (flt A)) :
  tensor_build A idx rule a b = Ok (g, w) ->
  exists rs,
    Forall2 (fun l r => rule l = Ok r) idx rs /\
    Forall (fun r => snd r <> []) rs /\
    tensor_value A rs (length idx) a b = Ok (g, w).
Proof.
  intros H. assert (H' := H). unfold tensor_build in H'.
  apply bind_ok in H' as (pts & Ep & _).
  destruct (mapM_inv rule fst idx pts Ep) as (rs & Hrs & _).
  exists rs. split; [exact Hrs|].
  destruct (Forall_or_Exists_nil A rs) as [Hne|Hex].
  - split; [exact Hne|]. now rewrite <- (tensor_build_Ok A idx rule a b rs).
  - rewrite (tensor_build_axis A idx rule a b rs Hrs Hex) in H. discriminate H.
Qed.

Lemma tensor_product_rule_inv (A : float_ops) (idx : list Z)
    (rule : Z -> result (rule1d A)) (a b : pynum)
    (g : list (list (flt A))) (w : list (flt A)) :
  tensor_product_rule A idx rule a b = Ok (g, w) ->
  exists za zb, a = PyInt za /\ b = PyInt zb /\ za < zb /\
                tensor_build A idx rule za zb = Ok (g, w).
Proof.
  unfold tensor_product_rule. intros H.
  case_bool (py_lt a b); simpl in H; [|discriminate].
  destruct a as [za| |]; try discriminate.
  destruct b as [zb| |]; try discriminate.
  exists za, zb. rewrite py_lt_int in E. repeat split; try assumption. lia.
Qed.

(** The shape of what [tensor_product_rule] returns. *)
Lemma tensor_shape_full (A : float_ops) (idx : list Z)
    (rule : Z -> result (rule1d A)) (a b : pynum)
    (g : list (list (flt A))) (w : list (flt A)) :
  tensor_product_rule A idx rule a b = Ok (g, w) ->
  (exists za zb, a = PyInt za /\ b = PyInt zb /\ za < zb) /\
  (exists rs, Forall2 (fun l r => rule l = Ok r) idx rs /\
     length g = fold_right Nat.mul 1%nat (map (fun r => length (fst r)) rs) /\
     length w = fold_right Nat.mul 1%nat (map (fun r => length (snd r)) rs)) /\
  Forall (fun p => length p = length idx) g /\
  w <> [].
Proof.
  intros H. apply tensor_product_rule_inv in H as (za & zb & -> & -> & Hab & H).
  split; [eauto|].
  apply tensor_build_inv in H as (rs & Hrs & Hne & E).
  destruct (tensor_value_cases A rs (length idx) za zb)
    as [Hov|(phi & psi & Hok)]; [rewrite Hov in E; discriminate E|].
  rewrite Hok in E. injection E as <- <-.
  split; [exists rs; split; [exact Hrs|];
          rewrite !length_map, !length_product, !map_map; split; reflexivity|].
  split.
  - apply Forall_forall. intros p Hp. apply in_map_iff in Hp as (q & <- & Hq).
    rewrite length_map. apply product_row_length in Hq.
    rewrite Hq, length_map. symmetry. eapply Forall2_length; eauto.
  - intros C. apply map_eq_nil in C. revert C.
    now apply product_snd_nonempty.
Qed.

(** X1: when [tensor_product_rule] returns, the endpoints were integers
    [a < b], the one-dimensional rule returned on every level of the
    multi-index, the number of points is the product of the numbers of nodes
    and the number of weights the product of the numbers of weights, every
    point has one coordinate per level, and there is at least one weight. *)
Theorem tensor_product_rule_shape (A : float_ops) (idx : list Z)
    (rule : Z -> result (rule1d A)) (a b : pynum)
    (g : list (list (flt A))) (w : list (flt A)) :
  tensor_product_rule A idx rule a b = Ok (g, w) ->
  (exists za zb, a = PyInt za /\ b = PyInt zb /\ za < zb) /\
  (exists rs, Forall2 (fun l r => rule l = Ok r) idx rs /\
     length g = fold_right Nat.mul 1%nat (map (fun r => length (fst r)) rs) /\
     length w = fold_right Nat.mul 1%nat (map (fun r => length (snd r)) rs)) /\
  Forall (fun p => length p = length idx) g /\
  w <> [].
Proof. apply tensor_shape_full. Qed.

Lemma tensor_product_rule_shape_witness :
  Forall (fun p => length p = length [2; 1])
    (product [fst (modepy_table 3); fst (modepy_table 1)]).
Proof.
  refine (proj1 (proj2 (proj2 (tensor_product_rule_shape binary64 [2; 1]
            (clenshaw_curtis_rule binary64 modepy_table)
            (PyInt (-1)) (PyInt 1) _
            (map (fprod binary64)
                 (product [snd (modepy_table 3); snd (modepy_table 1)])) _)))).
  reflexivity.
Defined.

(** ** The output of the sparse grid is well shaped *)

Lemma sparse_loop_shape (A : float_ops) (make : Z -> rule1d A)
    (dim level : Z) (a b : pynum) (n : nat) (idxs : list (list Z)) :
  Forall (fun idx => length idx = n) idxs ->
  forall P W P' W',
    sparse_loop A make dim level a b idxs P W = Ok (P', W') ->
    length P = length W -> Forall (fun p => length p = n) P ->
    length P' = length W' /\ Forall (fun p => length p = n) P'.
Proof.
  induction 1 as [|idx idxs Hidx _ IH]; intros P W P' W' H HL HP.
  - injection H as <- <-. split; assumption.
  - cbn [sparse_loop] in H. apply bind_ok in H as (c & _ & H).
    apply bind_ok in H as ([x w] & Et & H).
    apply bind_ok in H as (ws & Ews & H).
    apply mapM_length in Ews.
    apply IH in H; [exact H | |].
    + rewrite !length_app, !length_map. congruence.
    + apply Forall_app. split; [exact HP|].
      apply Forall_map_fst_combine.
      apply tensor_shape_full in Et as (_ & _ & Hrow & _).
      rewrite Hidx in Hrow. exact Hrow.
Qed.

Lemma index_set_Ok_dim (dim level : Z) (l : list (list Z)) :
  index_set dim level = Ok l -> 0 <= dim.
Proof.
  unfold index_set, product_repeat. intros H.
  destruct (Z.ltb_spec dim 0); [discriminate H | assumption].
Qed.

(** X2: whatever the provider and the endpoints, a rule returned by
    [sparse_grid_nodes_weights] has as many weights as points, and each of its
    points has exactly [dim] coordinates. *)
Theorem sparse_grid_shape (A : float_ops) (make : Z -> rule1d A)
    (dim level : Z) (a b : pynum)
    (pts : list (list (flt A))) (wts : list (flt A)) :
  sparse_grid_nodes_weights A make dim level a b = Ok (pts, wts) ->
  length pts = length wts /\
  Forall (fun p => Z.of_nat (length p) = dim) pts.
Proof.
  unfold sparse_grid_nodes_weights. intros H.
  apply bind_ok in H as (l & E & H).
  assert (Hd := index_set_Ok_dim dim level l E).
  apply (sparse_loop_shape A make dim level a b (Z.to_nat dim)) in H as [HL HP].
  - split; [exact HL|]. eapply Forall_impl; [|exact HP].
    intros p Hp. simpl in Hp. lia.
  - apply Forall_forall. intros idx Hin.
    apply (In_index_set dim level l idx Hd E) in Hin as (Hn & _). lia.
  - reflexivity.
  - constructor.
Qed.

Lemma sparse_grid_shape_witness :
  length [[B64.of_Z 2]; [B64.of_scaled 3 (-1)]; [B64.of_scaled 1 (-1)];
          [B64.of_Z 0]]
  = length [B64.div (B64.of_Z 1) (B64.of_Z 9); B64.div (B64.of_Z 8) (B64.of_Z 9);
            B64.div (B64.of_Z 8) (B64.of_Z 9); B64.div (B64.of_Z 1) (B64.of_Z 9)] /\
  Forall (fun p => Z.of_nat (length p) = 1)
    [[B64.of_Z 2]; [B64.of_scaled 3 (-1)]; [B64.of_scaled 1 (-1)];
     [B64.of_Z 0]].
Proof.
  apply (sparse_grid_shape binary64 modepy_table 1 1 (PyInt 0) (PyInt 2)).
  vm_compute. reflexivity.
Defined.

(** ** Degenerate dimensions and levels *)

Lemma zsum_repeat_1 (n : nat) : zsum (repeat 1 n) = Z.of_nat n.
Proof.
  induction n as [|n IH]; [reflexivity|].
  cbn [repeat]. rewrite zsum_cons, IH. lia.
Qed.

Lemma index_set_inhabited (dim level : Z) (l : list (list Z)) :
  1 <= dim -> 0 <= level -> index_set dim level = Ok l ->
  In ((level + 1) :: repeat 1 (Z.to_nat (dim - 1))) l.
Proof.
  intros Hd Hl E. apply (In_index_set dim level l _ ltac:(lia) E).
  rewrite zsum_cons, zsum_repeat_1. simpl length. rewrite repeat_length.
  repeat split; try lia.
  constructor; [lia|]. apply Forall_forall. intros x Hx.
  apply repeat_spec in Hx. lia.
Qed.

Lemma index_set_no_member (dim level : Z) (l : list (list Z)) :
  0 <= dim -> dim = 0 \/ level < 0 -> index_set dim level = Ok l -> l = [].
Proof.
  intros Hd Hcase E. destruct l as [|idx l]; [reflexivity|]. exfalso.
  destruct (In_index_set dim level _ idx Hd E) as [H _].
  destruct H as (Hn & Hall & Hs); [now left|].
  assert (Hge : Z.of_nat (length idx) <= zsum idx).
  { apply zsum_ge_length. eapply Forall_impl; [|exact Hall].
    intros i Hi. simpl in Hi. lia. }
  lia.
Qed.

(** X3: [index_set] raises the [ValueError] of [itertools.product] on a
    negative [dim]; for [dim >= 0] it returns, and the list is empty exactly
    when [dim = 0] or [level < 0]. *)
Theorem index_set_degenerate (dim level : Z) :
  (dim < 0 -> index_set dim level = Raise NegativeRepeat) /\
  (0 <= dim ->
   exists l, index_set dim level = Ok l /\
             (l = [] <-> dim = 0 \/ level < 0)).
Proof.
  split.
  - intros H. unfold index_set, product_repeat.
    replace (dim <? 0) with true by lia. reflexivity.
  - intros Hd. eexists. split; [apply index_set_eq; exact Hd|].
    split.
    + intros Hnil.
      destruct (Z_lt_le_dec level 0) as [?|Hl]; [now right|].
      destruct (Z.eq_dec dim 0) as [?|Hne]; [now left|]. exfalso.
      assert (Hin := index_set_inhabited dim level _ ltac:(lia) Hl
                       (index_set_eq dim level Hd)).
      rewrite Hnil in Hin. exact Hin.
    + intros Hcase.
      apply (index_set_no_member dim level _ Hd Hcase (index_set_eq dim level Hd)).
Qed.

Lemma index_set_degenerate_witness :
  index_set (-1) 3 = Raise NegativeRepeat /\
  exists l, index_set 3 (-2) = Ok l /\ (l = [] <-> 3 = 0 \/ -2 < 0).
Proof.
  split.
  - apply (proj1 (index_set_degenerate (-1) 3)). lia.
  - apply (proj2 (index_set_degenerate 3 (-2))). lia.
Defined.

(** With an empty index set nothing is computed. *)
Lemma sparse_grid_no_index (A : float_ops) (make : Z -> rule1d A)
    (dim level : Z) (a b : pynum) :
  0 <= dim -> dim = 0 \/ level < 0 ->
  sparse_grid_nodes_weights A make dim level a b = Ok ([], []).
Proof.
  intros Hd Hcase. unfold sparse_grid_nodes_weights.
  rewrite (index_set_eq dim level Hd).
  rewrite (index_set_no_member dim level _ Hd Hcase (index_set_eq dim level Hd)).
  reflexivity.
Qed.

(** X4: for [dim = 0] or a negative [level] the loop body never runs:
    [sparse_grid_nodes_weights] returns the empty rule without looking at the
    interval, so even [a >= b] or non-integer endpoints raise nothing. *)
Theorem sparse_grid_empty (A : float_ops) (make : Z -> rule1d A)
    (dim level : Z) (a b : pynum) :
  0 <= dim -> dim = 0 \/ level < 0 ->
  sparse_grid_nodes_weights A make dim level a b = Ok ([], []).
Proof. apply sparse_grid_no_index. Qed.

Lemma sparse_grid_empty_witness :
  sparse_grid_nodes_weights binary64 modepy_table 2 (-1)
    (PyFloat (3 # 2)) (PyInt 0)
  = Ok ([], []).
Proof. apply sparse_grid_empty; [lia | right; lia]. Defined.

(** ** Which exceptions the sparse grid can raise *)

Lemma mapM_int_mul_raise (A : float_ops) {X : Type} (c : Z)
    (l : list (X * flt A)) :
  (exists w, mapM (fun p => py_int_mul A c (snd p)) l = Raise FloatOverflow /\
             imul A c w = None) \/
  exists ws, mapM (fun p => py_int_mul A c (snd p)) l = Ok ws.
Proof.
  induction l as [|p l IH]; [right; eexists; reflexivity|].
  cbn [mapM]. unfold py_int_mul at 1 3.
  destruct (imul A c (snd p)) as [y|] eqn:Ey; [|left; eauto].
  cbn [bind]. destruct IH as [(w & Hov & Hw)|(ws & E)].
  - left. exists w. rewrite Hov. auto.
  - right. rewrite E. eexists. reflexivity.
Qed.

(** What [tensor_value] can be: a rule, or an overflow of one of the three
    float operations of the mapping. *)
Lemma tensor_value_outcome (A : float_ops) (rs : list (rule1d A)) (n : nat)
    (a b : Z) :
  (exists g w, tensor_value A rs n a b = Ok (g, w)) \/
  (tensor_value A rs n a b = Raise FloatOverflow /\
   ~ (a = -1 /\ b = 1) /\
   (int_half A (b - a) = None \/ int_half A (a + b) = None \/
    exists h, int_half A (b - a) = Some h /\ fpow A h n = None)).
Proof.
  unfold tensor_value. case_bool ((a =? -1) && (b =? 1)); [left; eauto|].
  assert (Hns : ~ (a = -1 /\ b = 1)) by lia.
  destruct (int_half A (b - a)) as [h|]; [|right; auto].
  destruct (int_half A (a + b)) as [m|]; [|right; auto].
  destruct (fpow A h n) as [p|] eqn:Ep; [left; eauto|].
  right. split; [reflexivity|]. split; [exact Hns|]. right. right. eauto.
Qed.

Lemma sparse_loop_outcome (A : float_ops) (make : Z -> rule1d A)
    (dim level a b : Z) (idxs : list (list Z)) :
  a < b -> 1 <= dim ->
  Forall (fun idx => length idx = Z.to_nat dim /\ zsum idx <= level + dim /\
                     Forall (fun l => 1 <= l) idx) idxs ->
  forall P W,
    (exists P' W',
       sparse_loop A make dim level (PyInt a) (PyInt b) idxs P W
         = Ok (P', W')) \/
    (sparse_loop A make dim level (PyInt a) (PyInt b) idxs P W
       = Raise AxisOutOfBounds /\
     exists l, 1 <= l /\ snd (make (point_count l)) = []) \/
    (sparse_loop A make dim level (PyInt a) (PyInt b) idxs P W
       = Raise FloatOverflow /\
     ((~ (a = -1 /\ b = 1) /\
       (int_half A (b - a) = None \/ int_half A (a + b) = None \/
        exists h, int_half A (b - a) = Some h /\
                  fpow A h (Z.to_nat dim) = None)) \/
      exists idx w, In idx idxs /\
        imul A (smolyak_value dim level (zsum idx)) w = None)).
Proof.
  intros Hab Hd. induction 1 as [|idx idxs (Hn & Hs & Hpos) _ IH]; intros P W.
  - left. do 2 eexists. reflexivity.
  - cbn [sparse_loop]. rewrite smolyak_coeff_value by assumption.
    cbn [bind]. rewrite tensor_checks_pass by assumption.
    assert (Hrs := cc_rule_Forall2 A make idx Hpos).
    destruct (Forall_or_Exists_nil A (map (fun l => make (point_count l)) idx))
      as [Hne|Hex].
    + rewrite (tensor_build_Ok A idx _ a b _ Hrs Hne), Hn.
      destruct (tensor_value_outcome A
                  (map (fun l => make (point_count l)) idx) (Z.to_nat dim) a b)
        as [(g & w & E)|(E & Hov)].
      * rewrite E. cbn [bind].
        destruct (mapM_int_mul_raise A (smolyak_value dim level (zsum idx))
                    (combine g w)) as [(wi & Hwi)|(ws & Ews)].
        -- right. right. rewrite (proj1 Hwi). split; [reflexivity|].
           right. exists idx, wi. split; [now left | exact (proj2 Hwi)].
        -- rewrite Ews. cbn [bind].
           destruct (IH (P ++ map fst (combine g w)) (W ++ ws))
             as [H|[H|(H & [Hov|(idx' & w' & Hin & Hov)])]].
           ++ now left.
           ++ right. now left.
           ++ right. right. split; [exact H | now left].
           ++ right. right. split; [exact H|]. right.
              exists idx', w'. split; [now right | exact Hov].
      * right. right. rewrite E. split; [reflexivity | now left].
    + right. left. rewrite (tensor_build_axis A idx _ a b _ Hrs Hex).
      split; [reflexivity|].
      apply Exists_exists in Hex as (r & Hr & Hnil).
      apply in_map_iff in Hr as (l & <- & Hl).
      exists l. split; [|exact Hnil].
      rewrite Forall_forall in Hpos. now apply Hpos.
Qed.

(** X5: for integers [a < b] and [dim >= 0], at every level (also
    [level <= 0]) [sparse_grid_nodes_weights] returns, or raises the axis
    error of [np.prod], or raises [OverflowError].  The axis error needs an
    empty weight array of the provider at some level; the overflow needs
    either an interval other than [-1, 1] on which [(b-a)/2], [(a+b)/2] or
    [((b-a)/2) ** dim] is not a finite float, or a coefficient of the index
    set whose product with a weight overflows.  The level error of the growth
    rule and the error of [math.comb] never occur. *)
Theorem sparse_grid_outcome (A : float_ops) (make : Z -> rule1d A)
    (dim level a b : Z) :
  0 <= dim -> a < b ->
  (exists pts wts,
     sparse_grid_nodes_weights A make dim level (PyInt a) (PyInt b)
       = Ok (pts, wts)) \/
  (sparse_grid_nodes_weights A make dim level (PyInt a) (PyInt b)
     = Raise AxisOutOfBounds /\
   exists l, 1 <= l /\ snd (make (point_count l)) = []) \/
  (sparse_grid_nodes_weights A make dim level (PyInt a) (PyInt b)
     = Raise FloatOverflow /\
   exn_class FloatOverflow = OverflowError /\
   ((~ (a = -1 /\ b = 1) /\
     (int_half A (b - a) = None \/ int_half A (a + b) = None \/
      exists h, int_half A (b - a) = Some h /\
                fpow A h (Z.to_nat dim) = None)) \/
    exists l idx w, index_set dim level = Ok l /\ In idx l /\
      imul A (smolyak_value dim level (zsum idx)) w = None)).
Proof.
  intros Hd Hab. destruct (Z.eq_dec dim 0) as [H0|H0].
  - left. rewrite sparse_grid_no_index by auto. do 2 eexists. reflexivity.
  - unfold sparse_grid_nodes_weights. rewrite (index_set_eq dim level Hd).
    cbn [bind].
    match goal with
    | |- context [sparse_loop A make dim level _ _ ?l _ _] =>
        destruct (sparse_loop_outcome A make dim level a b l Hab ltac:(lia))
          with (P := @nil (list (flt A))) (W := @nil (flt A))
          as [H|[H|(H & Hov)]]
    end.
    + apply Forall_forall. intros idx Hin.
      apply (In_index_set dim level _ idx Hd (index_set_eq dim level Hd)) in Hin
        as (Hn & Hall & Hs).
      split; [lia|]. split; [lia|]. eapply Forall_impl; [|exact Hall].
      intros i Hi. simpl in Hi. lia.
    + now left.
    + right. now left.
    + right. right. split; [exact H|]. split; [reflexivity|].
      destruct Hov as [Hov|(idx & w & Hin & Hov)]; [now left|].
      right. eexists. exists idx, w.
      split; [reflexivity|]. split; [exact Hin | exact Hov].
Qed.

Lemma sparse_grid_outcome_witness :
  (exists pts wts,
     sparse_grid_nodes_weights binary64 modepy_table 2 1 (PyInt 0)
       (PyInt (2 ^ 1025)) = Ok (pts, wts)) \/
  (sparse_grid_nodes_weights binary64 modepy_table 2 1 (PyInt 0)
     (PyInt (2 ^ 1025)) = Raise AxisOutOfBounds /\
   exists l, 1 <= l /\ snd (modepy_table (point_count l)) = []) \/
  (sparse_grid_nodes_weights binary64 modepy_table 2 1 (PyInt 0)
     (PyInt (2 ^ 1025)) = Raise FloatOverflow /\
   exn_class FloatOverflow = OverflowError /\
   ((~ (0 = -1 /\ 2 ^ 1025 = 1) /\
     (int_half binary64 (2 ^ 1025 - 0) = None \/
      int_half binary64 (0 + 2 ^ 1025) = None \/
      exists h, int_half binary64 (2 ^ 1025 - 0) = Some h /\
                fpow binary64 h (Z.to_nat 2) = None)) \/
    exists l idx w, index_set 2 1 = Ok l /\ In idx l /\
      imul binary64 (smolyak_value 2 1 (zsum idx)) w = None)).
Proof.
  apply (sparse_grid_outcome binary64 modepy_table 2 1 0 (2 ^ 1025));
    [lia | reflexivity].
Defined.

Lemma mapM_cc_raise (A : float_ops) {B : Type} (make : Z -> rule1d A)
    (f : rule1d A -> B) (idx : list Z) :
  Exists (fun l => l < 1) idx ->
  mapM (fun l => r <- clenshaw_curtis_rule A make l ;; Ok (f r)) idx
  = Raise LevelBelowOne.
Proof.
  induction idx as [|l idx IH]; intros H; [inversion H|].
  cbn [mapM]. destruct (Z_lt_le_dec l 1) as [Hl|Hl].
  - unfold clenshaw_curtis_rule, closed_non_linear_growth_rule.
    replace (l <? 1) with true by lia. reflexivity.
  - rewrite cc_rule_Ok by assumption. cbn [bind]. rewrite IH; [reflexivity|].
    inversion H; subst; [lia | assumption].
Qed.

(** X6: with the Clenshaw-Curtis rule and integers [a < b],
    [tensor_product_rule] raises the [ValueError] of the growth rule as soon
    as one level of the multi-index is below 1. *)
Theorem tensor_product_rule_level_error (A : float_ops)
    (make : Z -> rule1d A) (idx : list Z) (a b : Z) :
  a < b -> Exists (fun l => l < 1) idx ->
  tensor_product_rule A idx (clenshaw_curtis_rule A make) (PyInt a) (PyInt b)
    = Raise LevelBelowOne /\
  exn_class LevelBelowOne = ValueError.
Proof.
  intros Hab H. split; [|reflexivity].
  rewrite tensor_checks_pass by assumption. unfold tensor_build.
  rewrite mapM_cc_raise by assumption. reflexivity.
Qed.

Lemma tensor_product_rule_level_error_witness :
  tensor_product_rule binary64 [2; 0; 1]
    (clenshaw_curtis_rule binary64 modepy_table)
    (PyInt 0) (PyInt 1) = Raise LevelBelowOne.
Proof.
  apply (tensor_product_rule_level_error binary64 modepy_table [2; 0; 1] 0 1).
  - lia.
  - right. left. lia.
Defined.

(** X7: when the one-dimensional rule returns on every level but one of the
    weight arrays is empty, [tensor_product_rule] on integers [a < b] raises
    the axis error of [np.prod], whatever the nodes are. *)
Theorem tensor_product_rule_empty_weights (A : float_ops) (idx : list Z)
    (rule : Z -> result (rule1d A)) (a b : Z) (rs : list (rule1d A)) :
  a < b ->
  Forall2 (fun l r => rule l = Ok r) idx rs ->
  Exists (fun r => snd r = []) rs ->
  tensor_product_rule A idx rule (PyInt a) (PyInt b) = Raise AxisOutOfBounds.
Proof.
  intros Hab H Hex. rewrite tensor_checks_pass by assumption.
  now apply (tensor_build_axis A idx rule a b rs).
Qed.

Lemma tensor_product_rule_empty_weights_witness :
  tensor_product_rule binary64 [1; 2]
    (fun l => if l =? 1 then Ok ([B64.of_Z 0], [B64.of_Z 2])
              else Ok ([B64.of_Z (-1); B64.of_Z 1], []))
    (PyInt 0) (PyInt 1) = Raise AxisOutOfBounds.
Proof.
  apply (tensor_product_rule_empty_weights binary64 [1; 2] _ 0 1
           [([B64.of_Z 0], [B64.of_Z 2]); ([B64.of_Z (-1); B64.of_Z 1], [])]).
  - lia.
  - repeat constructor.
  - right. left. reflexivity.
Defined.

(** ** The number of multi-indices *)

Lemma binom_0_r (n : nat) : binom n 0 = 1%nat.
Proof. destruct n; reflexivity. Qed.

Lemma choose_rec (n : Z) (k : nat) :
  choose n (S k) = choose (n - 1) (S k) + choose (n - 1) k.
Proof.
  unfold choose. destruct (Z.ltb_spec n 0) as [H|H].
  - replace (n - 1 <? 0) with true by lia. reflexivity.
  - destruct (Z.eq_dec n 0) as [->|Hn]; [reflexivity|].
    replace (n - 1 <? 0) with false by lia.
    replace (Z.to_nat n) with (S (Z.to_nat (n - 1))) by lia.
    cbn [binom]. lia.
Qed.

Lemma choose_range (d k : nat) (lo n : Z) :
  n - lo < Z.of_nat k ->
  zsum (map (fun i => choose (n - i) d) (py_range lo (lo + Z.of_nat k)))
  = choose (n - lo + 1) (S d).
Proof.
  revert lo. induction k as [|k IH]; intros lo H.
  - unfold py_range. replace (Z.to_nat (lo + Z.of_nat 0 - lo)) with 0%nat by lia.
    simpl. unfold choose. destruct (Z.ltb_spec (n - lo + 1) 0); [reflexivity|].
    replace (n - lo + 1) with 0 by lia. reflexivity.
  - rewrite py_range_cons. cbn [map]. rewrite zsum_cons, IH by lia.
    rewrite (choose_rec (n - lo + 1) d).
    replace (n - (lo + 1) + 1) with (n - lo) by lia.
    replace (n - lo + 1 - 1) with (n - lo) by lia. lia.
Qed.

(** The tuples over [1..k] of sum at most [n <= k] are counted by a
    binomial coefficient. *)
Lemma count_sum_le (k d : nat) (n : Z) :
  n <= Z.of_nat k ->
  zsum (map (fun idx => if zsum idx <=? n then 1 else 0)
            (product (repeat (py_range 1 (1 + Z.of_nat k)) d)))
  = choose n d.
Proof.
  revert n. induction d as [|d IH]; intros n H.
  - cbn [repeat product map]. rewrite zsum_cons. unfold choose.
    rewrite binom_0_r. change (zsum []) with 0.
    destruct (Z.ltb_spec n 0); destruct (Z.leb_spec 0 n); lia.
  - cbn [repeat product]. rewrite zsum_flat_map.
    rewrite map_ext_in with (g := fun x => choose (n - x) d).
    + rewrite (choose_range d k 1 n) by lia. f_equal. lia.
    + intros x Hx. apply In_py_range in Hx. rewrite map_map.
      rewrite <- (IH (n - x)) by lia.
      f_equal. apply map_ext. intros idx. rewrite zsum_cons.
      destruct (Z.leb_spec (x + zsum idx) n);
        destruct (Z.leb_spec (zsum idx) (n - x)); lia.
Qed.

Lemma length_filter_zsum {A : Type} (p : A -> bool) (l : list A) :
  Z.of_nat (length (filter p l)) = zsum (map (fun x => if p x then 1 else 0) l).
Proof.
  induction l as [|x l IH]; [reflexivity|].
  cbn [filter map]. rewrite zsum_cons.
  destruct (p x); cbn [length]; lia.
Qed.

Lemma zsum_map_sub {A : Type} (f g : A -> Z) (l : list A) :
  zsum (map (fun x => f x - g x) l) = zsum (map f l) - zsum (map g l).
Proof.
  induction l as [|x l IH]; [reflexivity|].
  cbn [map]. rewrite !zsum_cons, IH. lia.
Qed.

(** X9: for [dim >= 0] and any [level], [index_set] returns exactly
    [C(level+dim, dim) - C(level, dim)] multi-indices (a binomial with a
    negative upper argument counting as zero). *)
Theorem index_set_length (dim level : Z) :
  0 <= dim ->
  exists l, index_set dim level = Ok l /\
    Z.of_nat (length l)
    = choose (level + dim) (Z.to_nat dim) - choose level (Z.to_nat dim).
Proof.
  intros Hd. eexists. split; [apply index_set_eq; exact Hd|].
  rewrite length_filter_zsum.
  rewrite map_ext with
    (g := fun idx => (if zsum idx <=? level + dim then 1 else 0)
                     - (if zsum idx <=? level then 1 else 0)).
  - rewrite zsum_map_sub.
    replace (py_range 1 (level + dim + 1))
      with (py_range 1 (1 + Z.of_nat (Z.to_nat (level + dim)))).
    + rewrite !count_sum_le by lia. reflexivity.
    + unfold py_range. do 2 f_equal. lia.
  - intros idx.
    destruct (Z.leb_spec (level + 1) (zsum idx));
      destruct (Z.leb_spec (zsum idx) (level + dim));
      destruct (Z.leb_spec (zsum idx) level); simpl; lia.
Qed.

Lemma index_set_length_witness :
  exists l, index_set 3 2 = Ok l /\
    Z.of_nat (length l) = choose (2 + 3) (Z.to_nat 3) - choose 2 (Z.to_nat 3).
Proof. apply (index_set_length 3 2). lia. Defined.

(** ** The growth rule *)

(** X12: from level 1 on the growth rule returns an odd, positive point
    count that increases strictly with the level, and from level 2 on one
    more level doubles the number of intervals between the points. *)
Theorem growth_rule_increasing (l1 l2 : Z) :
  1 <= l1 -> l1 < l2 ->
  exists m1 m2,
    closed_non_linear_growth_rule l1 = Ok m1 /\
    closed_non_linear_growth_rule l2 = Ok m2 /\
    1 <= m1 < m2 /\ Z.odd m1 = true /\
    (2 <= l1 -> l2 = l1 + 1 -> m2 - 1 = 2 * (m1 - 1)).
Proof.
  intros H1 H12. exists (point_count l1), (point_count l2).
  split; [apply growth_point_count; lia|].
  split; [apply growth_point_count; lia|].
  unfold point_count. replace (l2 =? 1) with false by lia.
  assert (Hpos : 0 < 2 ^ (l2 - 1)) by (apply Z.pow_pos_nonneg; lia).
  destruct (Z.eqb_spec l1 1) as [->|Hne].
  - repeat split; try lia.
  - assert (Hlt : 2 ^ (l1 - 1) < 2 ^ (l2 - 1))
      by (apply Z.pow_lt_mono_r; lia).
    assert (Hp1 : 0 < 2 ^ (l1 - 1)) by (apply Z.pow_pos_nonneg; lia).
    repeat split; try lia.
    + replace (l1 - 1) with (Z.succ (l1 - 2)) by lia.
      rewrite Z.pow_succ_r by lia.
      rewrite Z.add_comm, Z.odd_add_mul_2. reflexivity.
    + intros _ ->. replace (l1 + 1 - 1) with (Z.succ (l1 - 1)) by lia.
      rewrite Z.pow_succ_r by lia. lia.
Qed.

Lemma growth_rule_increasing_witness :
  exists m1 m2,
    closed_non_linear_growth_rule 3 = Ok m1 /\
    closed_non_linear_growth_rule 4 = Ok m2 /\
    1 <= m1 < m2 /\ Z.odd m1 = true /\
    (2 <= 3 -> 4 = 3 + 1 -> m2 - 1 = 2 * (m1 - 1)).
Proof. apply (growth_rule_increasing 3 4); lia. Defined.

(** ** Symmetry of the index set *)

Lemma zsum_Permutation (l l' : list Z) : Permutation l l' -> zsum l = zsum l'.
Proof.
  induction 1 as [|x l l' _ IH|x y l|l l' l'' _ IH1 _ IH2];
    rewrite ?zsum_cons; lia.
Qed.

(** X13: the index set is symmetric: with a multi-index it contains every
    rearrangement of it, and the rearrangement gets the same Smolyak
    coefficient. *)
Theorem index_set_symmetric (dim level : Z) (l : list (list Z))
    (idx idx' : list Z) :
  index_set dim level = Ok l -> Permutation idx idx' -> In idx l ->
  In idx' l /\ smolyak_coeff dim level idx' = smolyak_coeff dim level idx.
Proof.
  intros E Hp Hin. assert (Hd := index_set_Ok_dim dim level l E).
  split.
  - apply (In_index_set dim level l idx Hd E) in Hin as (Hn & Hall & Hs).
    apply (In_index_set dim level l idx' Hd E).
    rewrite <- (Permutation_length Hp), <- (zsum_Permutation _ _ Hp).
    repeat split; try lia.
    eapply Permutation_Forall; eauto.
  - unfold smolyak_coeff. rewrite (zsum_Permutation _ _ Hp). reflexivity.
Qed.

Lemma index_set_symmetric_witness :
  In [3; 1; 2] [[1; 1; 2]; [1; 1; 3]; [1; 1; 4]; [1; 2; 1]; [1; 2; 2];
                [1; 2; 3]; [1; 3; 1]; [1; 3; 2]; [1; 4; 1]; [2; 1; 1];
                [2; 1; 2]; [2; 1; 3]; [2; 2; 1]; [2; 2; 2]; [2; 3; 1];
                [3; 1; 1]; [3; 1; 2]; [3; 2; 1]; [4; 1; 1]] /\
  smolyak_coeff 3 3 [3; 1; 2] = smolyak_coeff 3 3 [1; 2; 3].
Proof.
  apply (index_set_symmetric 3 3 _ [1; 2; 3] [3; 1; 2]).
  - reflexivity.
  - apply Permutation_cons_app with (l1 := [3]) (l2 := [2]).
    apply perm_swap.
  - simpl. tauto.
Defined.

(** ** Level 0 *)

Lemma index_set_NoDup (dim level : Z) (l : list (list Z)) :
  index_set dim level = Ok l -> NoDup l.
Proof.
  intros E. assert (Hd := index_set_Ok_dim dim level l E).
  rewrite index_set_eq in E by assumption. injection E as <-.
  apply NoDup_filter, NoDup_product, Forall_forall.
  intros r Hr. apply repeat_spec in Hr. subst r. apply NoDup_py_range.
Qed.

Lemma all_ones (idx : list Z) :
  Forall (fun i => 1 <= i) idx -> zsum idx <= Z.of_nat (length idx) ->
  idx = repeat 1 (length idx).
Proof.
  induction 1 as [|i idx Hi Hall IH]; intros Hs; [reflexivity|].
  rewrite zsum_cons in Hs. simpl length in *.
  assert (Hge := zsum_ge_length idx Hall).
  cbn [repeat]. f_equal; [lia|]. apply IH. lia.
Qed.

Lemma index_set_level_0 (dim : Z) :
  1 <= dim -> index_set dim 0 = Ok [repeat 1 (Z.to_nat dim)].
Proof.
  intros Hd. assert (E := index_set_eq dim 0 ltac:(lia)).
  rewrite E. f_equal. apply singleton_by_members.
  - eapply index_set_NoDup; exact E.
  - intros idx. rewrite (In_index_set dim 0 _ idx ltac:(lia) E). split.
    + intros (Hn & Hall & Hs).
      replace (Z.to_nat dim) with (length idx) by lia.
      apply all_ones; [|lia].
      eapply Forall_impl; [|exact Hall]. intros i Hi. simpl in Hi. lia.
    + intros ->. rewrite repeat_length, zsum_repeat_1.
      repeat split; try lia.
      apply Forall_forall. intros x Hx. apply repeat_spec in Hx. lia.
Qed.

(** X14: at level 0 and [dim >= 1] the index set is the single multi-index
    [(1, ..., 1)], its coefficient is 1, and the sparse grid is the tensor
    rule of that multi-index with its points and weights paired. *)
Theorem sparse_grid_level_0 (A : float_ops) (make : Z -> rule1d A) (dim : Z)
    (a b : pynum) :
  1 <= dim ->
  index_set dim 0 = Ok [repeat 1 (Z.to_nat dim)] /\
  smolyak_coeff dim 0 (repeat 1 (Z.to_nat dim)) = Ok 1 /\
  sparse_grid_nodes_weights A make dim 0 a b =
  ('(x, w) <- tensor_product_rule A (repeat 1 (Z.to_nat dim))
                (clenshaw_curtis_rule A make) a b ;;
   ws <- mapM (fun p => py_int_mul A 1 (snd p)) (combine x w) ;;
   Ok (map fst (combine x w), ws)).
Proof.
  intros Hd.
  assert (Hc : smolyak_coeff dim 0 (repeat 1 (Z.to_nat dim)) = Ok 1).
  { rewrite smolyak_coeff_value by (rewrite ?zsum_repeat_1; lia).
    unfold smolyak_value. rewrite zsum_repeat_1.
    replace (0 + dim - Z.of_nat (Z.to_nat dim)) with 0 by lia.
    simpl. rewrite binom_0_r. reflexivity. }
  split; [now apply index_set_level_0|]. split; [exact Hc|].
  unfold sparse_grid_nodes_weights. rewrite index_set_level_0 by assumption.
  cbn [bind sparse_loop]. rewrite Hc. cbn [bind].
  destruct (tensor_product_rule _ _ _ a b) as [[x w]|e]; [|reflexivity].
  cbn [bind]. destruct (mapM _ (combine x w)); reflexivity.
Qed.

Lemma sparse_grid_level_0_witness :
  sparse_grid_nodes_weights binary64 modepy_table 2 0 (PyInt 0) (PyInt 2) =
  ('(x, w) <- tensor_product_rule binary64 (repeat 1 (Z.to_nat 2))
                (clenshaw_curtis_rule binary64 modepy_table)
                (PyInt 0) (PyInt 2) ;;
   ws <- mapM (fun p => py_int_mul binary64 1 (snd p)) (combine x w) ;;
   Ok (map fst (combine x w), ws)).
Proof.
  apply (proj2 (proj2 (sparse_grid_level_0 binary64 modepy_table 2
                         (PyInt 0) (PyInt 2) ltac:(lia)))).
Defined.

(** ** The integration operator *)

(** X17: for [dim = 0] or a negative [level] the rule is empty and
    [sparse_grid_integrate] raises the axis error of
    [np.apply_along_axis] instead of returning 0. *)
Theorem sparse_grid_integrate_empty (A : float_ops) (make : Z -> rule1d A)
    (f : list (flt A) -> flt A) (dim level : Z) :
  0 <= dim -> dim = 0 \/ level < 0 ->
  sparse_grid_integrate A make f dim level = Raise AxisOutOfBounds.
Proof.
  intros Hd Hcase. unfold sparse_grid_integrate.
  rewrite sparse_grid_no_index by assumption. reflexivity.
Qed.

Lemma sparse_grid_integrate_empty_witness :
  sparse_grid_integrate binary64 modepy_table (fun _ => B64.of_Z 1) 2 (-1)
  = Raise AxisOutOfBounds.
Proof. apply sparse_grid_integrate_empty; [lia | right; lia]. Defined.

(** ** Which one-dimensional rules are used *)

Lemma index_component_bound (dim level : Z) (l : list (list Z)) (idx : list Z) :
  index_set dim level = Ok l -> In idx l ->
  Forall (fun i => 1 <= i <= level + 1) idx.
Proof.
  intros E Hin. assert (Hd := index_set_Ok_dim dim level l E).
  apply (In_index_set dim level l idx Hd E) in Hin as (Hn & Hall & Hs).
  assert (Hpos : Forall (fun i => 1 <= i) idx).
  { eapply Forall_impl; [|exact Hall]. intros i Hi. simpl in Hi. lia. }
  apply Forall_forall. intros i Hi.
  apply in_split in Hi as (l1 & l2 & ->).
  rewrite zsum_app, zsum_cons in Hs. rewrite length_app in Hn. simpl length in Hn.
  apply Forall_app in Hpos as [H1 H2]. inversion H2 as [|? ? Hi H2']; subst.
  apply zsum_ge_length in H1, H2'. lia.
Qed.

Lemma tensor_product_rule_ext (A : float_ops) (idx : list Z)
    (rule1 rule2 : Z -> result (rule1d A)) (a b : pynum) :
  (forall l, In l idx -> rule1 l = rule2 l) ->
  tensor_product_rule A idx rule1 a b = tensor_product_rule A idx rule2 a b.
Proof.
  intros H. unfold tensor_product_rule.
  destruct (negb (py_lt a b)); [reflexivity|].
  destruct a; try reflexivity. destruct b; try reflexivity.
  unfold tensor_build.
  rewrite (mapM_ext_in (fun l => r <- rule1 l ;; Ok (fst r))
                       (fun l => r <- rule2 l ;; Ok (fst r)))
    by (intros l Hl; rewrite (H l Hl); reflexivity).
  rewrite (mapM_ext_in (fun l => r <- rule1 l ;; Ok (snd r))
                       (fun l => r <- rule2 l ;; Ok (snd r)))
    by (intros l Hl; rewrite (H l Hl); reflexivity).
  reflexivity.
Qed.

Lemma sparse_loop_ext (A : float_ops) (make1 make2 : Z -> rule1d A)
    (dim level : Z) (a b : pynum) (idxs : list (list Z)) :
  Forall (Forall (fun i => make1 (point_count i) = make2 (point_count i)
                           \/ i < 1)) idxs ->
  forall P W,
    sparse_loop A make1 dim level a b idxs P W
    = sparse_loop A make2 dim level a b idxs P W.
Proof.
  induction 1 as [|idx idxs Hidx _ IH]; intros P W; [reflexivity|].
  cbn [sparse_loop].
  rewrite (tensor_product_rule_ext A idx (clenshaw_curtis_rule A make1)
             (clenshaw_curtis_rule A make2)).
  - destruct (smolyak_coeff dim level idx) as [c|e]; [|reflexivity].
    cbn [bind].
    destruct (tensor_product_rule A idx (clenshaw_curtis_rule A make2) a b)
      as [[x w]|e]; [|reflexivity].
    cbn [bind]. destruct (mapM _ (combine x w)); [|reflexivity].
    cbn [bind]. apply IH.
  - intros i Hi. rewrite Forall_forall in Hidx.
    destruct (Hidx i Hi) as [Heq|Hlt].
    + destruct (Z_lt_le_dec i 1) as [Hl|Hl].
      * unfold clenshaw_curtis_rule, closed_non_linear_growth_rule.
        replace (i <? 1) with true by lia. reflexivity.
      * rewrite !cc_rule_Ok by assumption. now rewrite Heq.
    + unfold clenshaw_curtis_rule, closed_non_linear_growth_rule.
      replace (i <? 1) with true by lia. reflexivity.
Qed.

(** X18: every level of every multi-index of the index set lies in
    [1, level+1], so the sparse grid asks the provider only for the point
    counts of the levels 1 to [level+1]: two providers that agree on these
    give the same result, errors included. *)
Theorem sparse_grid_provider_levels (A : float_ops)
    (make1 make2 : Z -> rule1d A) (dim level : Z) (a b : pynum) :
  (forall l idx, index_set dim level = Ok l -> In idx l ->
     Forall (fun i => 1 <= i <= level + 1) idx) /\
  ((forall i, 1 <= i <= level + 1 ->
      make1 (point_count i) = make2 (point_count i)) ->
   sparse_grid_nodes_weights A make1 dim level a b
   = sparse_grid_nodes_weights A make2 dim level a b).
Proof.
  split; [intros l idx; apply index_component_bound|].
  intros H. unfold sparse_grid_nodes_weights.
  destruct (index_set dim level) as [l|e] eqn:E; [|reflexivity].
  cbn [bind]. apply sparse_loop_ext.
  apply Forall_forall. intros idx Hin.
  eapply Forall_impl; [|exact (index_component_bound dim level l idx E Hin)].
  intros i Hi. left. now apply H.
Qed.

Lemma sparse_grid_provider_levels_witness :
  sparse_grid_nodes_weights binary64 modepy_table 2 1 (PyInt 0) (PyInt 1)
  = sparse_grid_nodes_weights binary64
      (fun m => if m <=? 3 then modepy_table m else ([], []))
      2 1 (PyInt 0) (PyInt 1).
Proof.
  apply (proj2 (sparse_grid_provider_levels binary64 modepy_table
                  (fun m => if m <=? 3 then modepy_table m else ([], []))
                  2 1 (PyInt 0) (PyInt 1))).
  intros i Hi. assert (Hc : i = 1 \/ i = 2) by lia.
  destruct Hc as [-> | ->]; reflexivity.
Defined.

(** ** Sign of the coefficients *)

Lemma binom_pos (n k : nat) : (k <= n)%nat -> (0 < binom n k)%nat.
Proof.
  revert k. induction n as [|n IH]; intros [|k] H; simpl; try lia.
  destruct (Nat.eq_dec k n) as [->|Hne].
  - rewrite binom_diag. lia.
  - specialize (IH k ltac:(lia)). lia.
Qed.

Lemma pow_m1_parity (e : Z) :
  0 <= e -> (-1) ^ e = if Z.even e then 1 else -1.
Proof.
  intros He. destruct (Z.even e) eqn:E.
  - apply Z.even_spec in E as [k ->].
    rewrite Z.pow_mul_r by lia. change ((-1) ^ 2) with 1. apply Z.pow_1_l. lia.
  - rewrite <- Z.negb_odd in E. apply negb_false_iff, Z.odd_spec in E as [k ->].
    rewrite Z.pow_add_r, Z.pow_mul_r by lia.
    change ((-1) ^ 2) with 1. rewrite Z.pow_1_l by lia. reflexivity.
Qed.

(** X19: on the index set no coefficient is zero: it is the binomial
    [C(dim-1, level+dim-s)], which is positive, with sign plus when
    [level+dim-s] is even and minus when it is odd; on the top layer
    [s = level+dim] it is 1. *)
Theorem smolyak_coeff_sign (dim level : Z) (l : list (list Z)) (idx : list Z) :
  index_set dim level = Ok l -> In idx l ->
  exists c, smolyak_coeff dim level idx = Ok c /\
    c <> 0 /\
    Z.abs c = Z.of_nat (binom (Z.to_nat (dim - 1))
                              (Z.to_nat (level + dim - zsum idx))) /\
    (0 < c <-> Z.even (level + dim - zsum idx) = true) /\
    (zsum idx = level + dim -> c = 1).
Proof.
  intros E Hin. assert (Hd := index_set_Ok_dim dim level l E).
  apply (In_index_set dim level l idx Hd E) in Hin as (_ & _ & Hs).
  exists (smolyak_value dim level (zsum idx)).
  split; [apply smolyak_coeff_value; lia|].
  unfold smolyak_value. rewrite pow_m1_parity by lia.
  assert (Hb := binom_pos (Z.to_nat (dim - 1))
                  (Z.to_nat (level + dim - zsum idx)) ltac:(lia)).
  set (B := binom _ _) in *.
  destruct (Z.even (level + dim - zsum idx)) eqn:Ev.
  - repeat split; try lia.
    intros Htop. subst B. replace (level + dim - zsum idx) with 0 by lia.
    simpl. rewrite binom_0_r. reflexivity.
  - repeat split; try lia; try discriminate.
    intros Htop. rewrite Htop, Z.sub_diag in Ev. discriminate Ev.
Qed.

Lemma smolyak_coeff_sign_witness :
  exists c, smolyak_coeff 3 2 [1; 1; 1] = Ok c /\
    c <> 0 /\
    Z.abs c = Z.of_nat (binom (Z.to_nat (3 - 1))
                              (Z.to_nat (2 + 3 - zsum [1; 1; 1]))) /\
    (0 < c <-> Z.even (2 + 3 - zsum [1; 1; 1]) = true) /\
    (zsum [1; 1; 1] = 2 + 3 -> c = 1).
Proof.
  apply (smolyak_coeff_sign 3 2 [[1; 1; 1]; [1; 1; 2]; [1; 1; 3]; [1; 2; 1];
                                 [1; 2; 2]; [1; 3; 1]; [2; 1; 1]; [2; 1; 2];
                                 [2; 2; 1]; [3; 1; 1]] [1; 1; 1]).
  - reflexivity.
  - now left.
Defined.

(** ** The number of points *)

Lemma list_sum_Forall2 {S T : Type} (f : S -> nat) (g : T -> nat)
    (l : list S) (r : list T) :
  Forall2 (fun x y => g y = f x) l r ->
  list_sum (map g r) = list_sum (map f l).
Proof.
  induction 1 as [|x y l r Hxy _ IH]; [reflexivity|].
  change (g y + list_sum (map g r) = f x + list_sum (map f l))%nat.
  now rewrite Hxy, IH.
Qed.

(** X20: for integers [a < b] and a provider that returns, at every level up
    to [level + 1], as many nodes as weights and at least one,
    [sparse_grid_nodes_weights] returns unless a float operation raises
    [OverflowError], and its number of points (repetitions included) is the
    sum over the index set of the products of the numbers of nodes the
    provider returned for the levels of each multi-index. *)
Theorem sparse_grid_point_count (A : float_ops) (make : Z -> rule1d A)
    (dim level a b : Z) :
  0 <= dim -> a < b ->
  (forall i, 1 <= i <= level + 1 -> paired_at A make i) ->
  sparse_grid_nodes_weights A make dim level (PyInt a) (PyInt b)
    = Raise FloatOverflow \/
  exists l pts wts,
    index_set dim level = Ok l /\
    sparse_grid_nodes_weights A make dim level (PyInt a) (PyInt b)
      = Ok (pts, wts) /\
    length pts
    = list_sum
        (map (fun idx =>
                fold_right Nat.mul 1%nat
                  (map (fun i => length (fst (make (point_count i)))) idx))
             l).
Proof.
  intros Hd Hab Hmake.
  assert (E := index_set_eq dim level Hd).
  destruct (Z.eq_dec dim 0) as [H0|H0].
  - right. rewrite sparse_grid_no_index by auto.
    exists [], [], []. split; [|split; reflexivity].
    rewrite E. f_equal. apply (index_set_no_member dim level _ Hd); auto.
  - match type of E with _ = Ok ?l0 => set (l := l0) in * end.
    unfold sparse_grid_nodes_weights. rewrite E. cbn [bind].
    destruct (sparse_loop_combination A make dim level a b l Hab ltac:(lia))
      with (P := @nil (list (flt A))) (W := @nil (flt A))
      as [Hov|(rules & scaled & Hr & _ & Eq)].
    + apply Forall_forall. intros idx Hin.
      assert (Hb := index_component_bound dim level l idx E Hin).
      apply (In_index_set dim level l idx Hd E) in Hin as (Hn & Hall & Hs).
      split; [lia|]. eapply Forall_impl; [|exact Hb].
      intros i Hi. simpl in Hi. split; [lia | apply Hmake; lia].
    + now left.
    + right. exists l. do 2 eexists. split; [reflexivity|].
      split; [exact Eq|]. cbn [app]. rewrite length_flat_map.
      apply list_sum_Forall2.
      eapply Forall2_impl; [|exact Hr]. intros idx xw (_ & _ & H). exact H.
Qed.

Lemma sparse_grid_point_count_witness :
  sparse_grid_nodes_weights binary64 modepy_table 2 1 (PyInt 0) (PyInt 1)
    = Raise FloatOverflow \/
  exists l pts wts,
    index_set 2 1 = Ok l /\
    sparse_grid_nodes_weights binary64 modepy_table 2 1 (PyInt 0) (PyInt 1)
      = Ok (pts, wts) /\
    length pts
    = list_sum
        (map (fun idx =>
                fold_right Nat.mul 1%nat
                  (map (fun i => length (fst (modepy_table (point_count i))))
                       idx))
             l).
Proof.
  apply (sparse_grid_point_count binary64 modepy_table 2 1 0 1); [lia | lia |].
  intros i Hi. apply modepy_table_paired. exact Hi.
Defined.

(** ** The empty multi-index *)

(** X8: on the empty multi-index and integers [a < b], [tensor_product_rule]
    calls no rule; in binary64 it returns one point without coordinates, of
    weight 1.0, unless the interval is not [-1, 1] and [(b-a)/2] or [(a+b)/2]
    is not a finite float, which raises [OverflowError]. *)
Theorem tensor_product_rule_no_index (rule : Z -> result (rule1d binary64))
    (a b : Z) :
  a < b ->
  tensor_product_rule binary64 [] rule (PyInt a) (PyInt b)
  = if (a =? -1) && (b =? 1) then Ok ([[]], [B64.of_Z 1])
    else match B64.half (b - a), B64.half (a + b) with
         | Some _, Some _ => Ok ([[]], [B64.of_Z 1])
         | _, _ => Raise FloatOverflow
         end.
Proof.
  intros Hab. rewrite tensor_checks_pass by assumption.
  rewrite (tensor_build_Ok binary64 [] rule a b []) by constructor.
  unfold tensor_value. destruct ((a =? -1) && (b =? 1)); [reflexivity|].
  cbn [int_half binary64].
  destruct (B64.half (b - a)) as [h|]; [|reflexivity].
  destruct (B64.half (a + b)) as [m|]; reflexivity.
Qed.

Lemma tensor_product_rule_no_index_witness :
  tensor_product_rule binary64 [] (fun _ => Raise LevelBelowOne)
    (PyInt 2) (PyInt 5) = Ok ([[]], [B64.of_Z 1]).
Proof.
  apply (tensor_product_rule_no_index (fun _ => Raise LevelBelowOne) 2 5).
  lia.
Defined.

(** ** The points on [a, b] are the mapped points of [-1, 1] *)

Lemma map_fst_combine_map {X Y X' Y' Y'' : Type} (F : X -> X') (G : Y -> Y')
    (G' : Y -> Y'') (x : list X) (y : list Y) :
  map fst (combine (map F x) (map G y))
  = map F (map fst (combine x (map G' y))).
Proof.
  revert y. induction x as [|u x IH]; intros [|v y]; simpl; try reflexivity.
  now rewrite IH.
Qed.

Lemma length_combine_map {X Y X' Y' Y'' : Type} (F : X -> X') (G : Y -> Y')
    (G' : Y -> Y'') (x : list X) (y : list Y) :
  length (combine (map F x) (map G y)) = length (combine x (map G' y)).
Proof. now rewrite !length_combine, !length_map. Qed.

Lemma sparse_loop_remap (A : float_ops) (make : Z -> rule1d A)
    (dim level a b : Z) (n : nat) (phi : flt A -> flt A)
    (idxs : list (list Z)) :
  a < b -> ~ (a = -1 /\ b = 1) ->
  (forall h m, int_half A (b - a) = Some h -> int_half A (a + b) = Some m ->
     forall x, phi x = fadd A (fmul A h x) m) ->
  Forall (fun idx => length idx = n) idxs ->
  forall P W Pr Wr W0,
    sparse_loop A make dim level (PyInt (-1)) (PyInt 1) idxs P W
      = Ok (Pr, Wr) ->
    length W0 = length W ->
    sparse_loop A make dim level (PyInt a) (PyInt b) idxs (map (map phi) P) W0
      = Raise FloatOverflow \/
    exists W',
      sparse_loop A make dim level (PyInt a) (PyInt b) idxs
        (map (map phi) P) W0 = Ok (map (map phi) Pr, W') /\
      length W' = length Wr.
Proof.
  intros Hab Hns Hphi. induction 1 as [|idx idxs Hidx _ IH];
    intros P W Pr Wr W0 H HW.
  - injection H as <- <-. right. exists W0. split; [reflexivity | exact HW].
  - cbn [sparse_loop] in H |- *.
    apply bind_ok in H as (c & Ec & H). rewrite Ec. cbn [bind].
    apply bind_ok in H as ([x w] & Et & H).
    apply tensor_product_rule_inv in Et as (za & zb & Ea & Eb & _ & Et).
    injection Ea as <-. injection Eb as <-.
    apply tensor_build_inv in Et as (rs & Hrs & Hne & Ev).
    unfold tensor_value in Ev. cbn [Z.eqb andb Pos.eqb] in Ev.
    injection Ev as <- <-.
    rewrite tensor_checks_pass, (tensor_build_Ok A idx _ a b rs Hrs Hne)
      by assumption.
    unfold tensor_value. replace ((a =? -1) && (b =? 1)) with false by lia.
    destruct (int_half A (b - a)) as [h|] eqn:Eh; [|now left].
    destruct (int_half A (a + b)) as [m|] eqn:Em; [|now left].
    destruct (fpow A h (length idx)) as [p|]; [|now left].
    cbn [bind].
    apply bind_ok in H as (ws0 & Ews0 & H). apply mapM_length in Ews0.
    assert (Hm : forall X : list (list (flt A)),
              map (map (fun x => fadd A (fmul A h x) m)) X = map (map phi) X).
    { intros X. apply map_ext. intros t. apply map_ext. intros x.
      symmetry. now apply Hphi. }
    rewrite Hm.
    match goal with
    | |- context [mapM ?f ?l] =>
        destruct (mapM_int_mul A c l) as [Hov|(ws & Ews & _)]
    end; [left; rewrite Hov; reflexivity|].
    rewrite Ews. cbn [bind]. apply mapM_length in Ews.
    rewrite (map_fst_combine_map (map phi) _ (fprod A)).
    rewrite <- map_app.
    eapply IH; [exact H|].
    rewrite !length_app, Ews, Ews0, HW.
    now rewrite (length_combine_map (map phi) _ (fprod A)).
Qed.

(** X10: for integers [a < b] other than [-1, 1], whenever the rule on the
    reference interval [-1, 1] is returned, the rule on [a, b] is returned
    too unless a float operation raises [OverflowError]; its points are the
    reference points in the same order, each coordinate mapped by the float
    operations [x -> (b-a)/2 * x + (a+b)/2], and it has as many weights. *)
Theorem sparse_grid_affine (A : float_ops) (make : Z -> rule1d A)
    (dim level a b : Z) (P : list (list (flt A))) (W : list (flt A)) :
  a < b -> ~ (a = -1 /\ b = 1) ->
  sparse_grid_nodes_weights A make dim level (PyInt (-1)) (PyInt 1)
    = Ok (P, W) ->
  sparse_grid_nodes_weights A make dim level (PyInt a) (PyInt b)
    = Raise FloatOverflow \/
  exists (phi : flt A -> flt A) (W' : list (flt A)),
    sparse_grid_nodes_weights A make dim level (PyInt a) (PyInt b)
      = Ok (map (map phi) P, W') /\
    length W' = length W /\
    forall h m, int_half A (b - a) = Some h -> int_half A (a + b) = Some m ->
      forall x, phi x = fadd A (fmul A h x) m.
Proof.
  unfold sparse_grid_nodes_weights. intros Hab Hns H.
  apply bind_ok in H as (l & E & H). rewrite E. cbn [bind].
  assert (Hd := index_set_Ok_dim dim level l E).
  set (phi := match int_half A (b - a), int_half A (a + b) with
              | Some h, Some m => fun x => fadd A (fmul A h x) m
              | _, _ => fun x => x
              end).
  assert (Hphi : forall h m, int_half A (b - a) = Some h ->
                   int_half A (a + b) = Some m ->
                   forall x, phi x = fadd A (fmul A h x) m).
  { intros h m Eh Em x. unfold phi. rewrite Eh, Em. reflexivity. }
  destruct (sparse_loop_remap A make dim level a b (Z.to_nat dim) phi l
              Hab Hns Hphi)
    with (P := @nil (list (flt A))) (W := @nil (flt A)) (Pr := P) (Wr := W)
         (W0 := @nil (flt A)) as [Hov|(W' & E' & HW)].
  - apply Forall_forall. intros idx Hin.
    apply (In_index_set dim level l idx Hd E) in Hin as (Hn & _). lia.
  - exact H.
  - reflexivity.
  - now left.
  - right. exists phi, W'. split; [exact E'|]. split; [exact HW | exact Hphi].
Qed.

Lemma sparse_grid_affine_witness :
  sparse_grid_nodes_weights binary64 modepy_table 1 1 (PyInt 0) (PyInt 4)
    = Raise FloatOverflow \/
  exists (phi : spec_float -> spec_float) (W' : list spec_float),
    sparse_grid_nodes_weights binary64 modepy_table 1 1 (PyInt 0) (PyInt 4)
      = Ok (map (map phi) (map (fun x => [x]) (fst (modepy_table 3))), W') /\
    length W' = length (snd (modepy_table 3)) /\
    forall h m, int_half binary64 (4 - 0) = Some h ->
      int_half binary64 (0 + 4) = Some m ->
      forall x, phi x = fadd binary64 (fmul binary64 h x) m.
Proof.
  apply (sparse_grid_affine binary64 modepy_table 1 1 0 4
           (map (fun x => [x]) (fst (modepy_table 3))) (snd (modepy_table 3)));
    [lia | lia | vm_compute; reflexivity].
Defined.

